(** * Stock-Market-Analysis: the indicator and forecasting pipeline

    A shallow embedding of [StockAnalysisSystem.calculate_technical_indicators]
    and [StockAnalysisSystem.train_predict_lstm] of [stock_prediction_.py],
    together with the parts of pandas, numpy and scikit-learn they call.

    Numbers.  The program computes on IEEE binary64 values.  They are modelled
    as exact rationals extended with the two infinities and NaN ([xfloat]):
    the special values follow the IEEE rules (x/0 is infinite, 0/0 is NaN,
    NaN propagates, comparisons with NaN are false), rounding is not modelled
    and zero carries no sign.  The equalities proved are therefore those of
    real arithmetic, which the program reaches up to rounding.  The square
    root is a parameter ([FloatSqrt]).

    Timestamps.  They are 64-bit integers of nanoseconds, as in pandas.

    Exceptions.  Python code that can raise returns [exn + A]. *)

From Stdlib Require Import QArith Qround Qminmax Lqa.
From stdpp Require Import gmap strings list.

(** ** Extended rationals *)

Inductive xfloat : Type :=
| Fin (q : Q)
| PInf
| NInf
| NaN.

(** Two [xfloat]s denote the same value. *)
Definition xeq (x y : xfloat) : Prop :=
  match x, y with
  | Fin a, Fin b => (a == b)%Q
  | PInf, PInf => True
  | NInf, NInf => True
  | NaN, NaN => True
  | _, _ => False
  end.

Definition is_nan (x : xfloat) : bool :=
  match x with NaN => true | _ => false end.

Definition is_inf (x : xfloat) : bool :=
  match x with PInf | NInf => true | _ => false end.

Definition is_finite (x : xfloat) : bool :=
  match x with Fin _ => true | _ => false end.

Definition Qlt_bool (a b : Q) : bool := negb (Qle_bool b a).

(** The infinity (or NaN) that a product or quotient with an infinite or
    zero operand takes, from the sign of the other operand. *)
Definition inf_of_sign (c : comparison) : xfloat :=
  match c with Gt => PInf | Lt => NInf | Eq => NaN end.

Definition xopp (x : xfloat) : xfloat :=
  match x with
  | Fin a => Fin (- a)
  | PInf => NInf
  | NInf => PInf
  | NaN => NaN
  end.

Definition xadd (x y : xfloat) : xfloat :=
  match x, y with
  | NaN, _ | _, NaN => NaN
  | Fin a, Fin b => Fin (a + b)
  | PInf, NInf | NInf, PInf => NaN
  | PInf, _ | _, PInf => PInf
  | NInf, _ | _, NInf => NInf
  end.

Definition xsub (x y : xfloat) : xfloat := xadd x (xopp y).

Definition xmul (x y : xfloat) : xfloat :=
  match x, y with
  | NaN, _ | _, NaN => NaN
  | Fin a, Fin b => Fin (a * b)
  | Fin a, PInf | PInf, Fin a => inf_of_sign (a ?= 0)%Q
  | Fin a, NInf | NInf, Fin a => inf_of_sign (0 ?= a)%Q
  | PInf, PInf | NInf, NInf => PInf
  | PInf, NInf | NInf, PInf => NInf
  end.

Definition xdiv (x y : xfloat) : xfloat :=
  match x, y with
  | NaN, _ | _, NaN => NaN
  | Fin a, Fin b =>
      if Qeq_bool b 0 then inf_of_sign (a ?= 0)%Q else Fin (a / b)
  | Fin _, (PInf | NInf) => Fin 0
  | PInf, Fin b => if Qlt_bool b 0 then NInf else PInf
  | NInf, Fin b => if Qlt_bool b 0 then PInf else NInf
  | (PInf | NInf), (PInf | NInf) => NaN
  end.

(** IEEE comparisons: false as soon as one side is NaN. *)
Definition xltb (x y : xfloat) : bool :=
  match x, y with
  | NaN, _ | _, NaN => false
  | Fin a, Fin b => Qlt_bool a b
  | NInf, (Fin _ | PInf) => true
  | Fin _, PInf => true
  | _, _ => false
  end.

Definition xeqb (x y : xfloat) : bool :=
  match x, y with
  | Fin a, Fin b => Qeq_bool a b
  | PInf, PInf | NInf, NInf => true
  | _, _ => false
  end.

Definition xleb (x y : xfloat) : bool := xltb x y || xeqb x y.

Definition Q_of_nat (n : nat) : Q := inject_Z (Z.of_nat n).

Definition xsum (xs : list xfloat) : xfloat := foldl xadd (Fin 0) xs.

(** The same sum on rationals. *)
Definition Qsum (qs : list Q) : Q := foldl Qplus 0%Q qs.

(** The float square root on non-negative rationals, left abstract. *)
Class FloatSqrt := fl_sqrt : Q → Q.

Definition xsqrt `{FloatSqrt} (x : xfloat) : xfloat :=
  match x with
  | Fin a => if Qlt_bool a 0 then NaN else Fin (fl_sqrt a)
  | PInf => PInf
  | NInf | NaN => NaN
  end.

(** ** Exceptions *)

Inductive exn : Type :=
| KeyError
| IndexError
| ValueError
| OutOfBoundsDatetime.

Definition exn_name (e : exn) : string :=
  match e with
  | KeyError => "KeyError"
  | IndexError => "IndexError"
  | ValueError => "ValueError"
  | OutOfBoundsDatetime => "OutOfBoundsDatetime"
  end.

#[global] Instance exn_ret : MRet (sum exn) := λ A, inr.
#[global] Instance exn_bind : MBind (sum exn) :=
  λ A B f m, match m with inl e => inl e | inr a => f a end.

Definition raise {A} (e : exn) : exn + A := inl e.

(** A [for] loop over a list whose body may raise. *)
Fixpoint for_each {S A} (body : S → A → exn + S) (s : S) (l : list A) : exn + S :=
  match l with
  | [] => inr s
  | a :: l' => s' ← body s a; for_each body s' l'
  end.

(** ** Python and numpy sequences *)

(** [range(a, b)] for natural bounds. *)
Definition range (a b : nat) : list nat := seq a (b - a).

(** A slice bound: a negative bound counts from the end, and every bound is
    clamped to the sequence. *)
Definition slice_bound (n : nat) (i : Z) : nat :=
  if (i <? 0)%Z then Z.to_nat (Z.of_nat n + i) else Z.to_nat i `min` n.

(** [l[i:]] *)
Definition slice_from {A} (i : Z) (l : list A) : list A :=
  drop (slice_bound (length l) i) l.

(** [l[i:j]] *)
Definition slice {A} (i j : Z) (l : list A) : list A :=
  let a := slice_bound (length l) i in
  let b := slice_bound (length l) j in
  take (b - a) (drop a l).

(** [l[i]] for a natural index. *)
Definition item {A} (l : list A) (i : nat) : exn + A :=
  match l !! i with
  | Some x => inr x
  | None => raise IndexError
  end.

(** [l[-1]] *)
Definition item_last {A} (l : list A) : exn + A :=
  match last l with
  | Some x => inr x
  | None => raise IndexError
  end.

(** [a.reshape(1, k, 1)] of a one-dimensional array: the sizes must agree. *)
Definition reshape_1_k_1 {A} (k : nat) (a : list A) : exn + list A :=
  if bool_decide (length a = k) then inr a else raise ValueError.

(** [np.reshape(x, (x.shape[0], x.shape[1], 1))] of the array made from a
    list of windows: an empty list makes a one-dimensional array of shape
    [(0,)], which has no [shape[1]]. *)
Definition reshape_windows {A} (x : list (list A)) : exn + list (list A) :=
  match x with
  | [] => raise IndexError
  | _ => inr x
  end.

(** ** pandas: frames and series transforms *)

(** Timestamps are 64-bit integers, nanoseconds since the epoch; the least
    64-bit value stands for "not a time", so a timestamp lies between
    [- i8max] and [i8max] (1677-09-21 and 2262-04-11). *)
Definition day : Z := 86400000000000.

Definition i8max : Z := 9223372036854775807.

Definition timestamp_in_bounds (ts : Z) : bool :=
  (- i8max <=? ts)%Z && (ts <=? i8max)%Z.

(** [ts + timedelta]: the sum must be a timestamp again (older versions of
    the library raise [OverflowError] here; no statement below depends on
    the class). *)
Definition timestamp_add (ts delta : Z) : exn + Z :=
  if timestamp_in_bounds (ts + delta) then inr (ts + delta)%Z
  else inl OutOfBoundsDatetime.

(** A [DataFrame]: its index and its named columns, each as long as the
    index. *)
Record DataFrame : Type := {
  index : list Z;
  columns : gmap string (list xfloat);
}.

(** [df[c]] *)
Definition df_get (df : DataFrame) (c : string) : exn + list xfloat :=
  match columns df !! c with
  | Some v => inr v
  | None => raise KeyError
  end.

(** [df[c] = v] *)
Definition df_set (df : DataFrame) (c : string) (v : list xfloat) : DataFrame :=
  {| index := index df; columns := <[c := v]> (columns df) |}.

Definition mean (win : list xfloat) : xfloat :=
  xdiv (xsum win) (Fin (Q_of_nat (length win))).

(** Sample standard deviation ([ddof=1]). *)
Definition std `{FloatSqrt} (win : list xfloat) : xfloat :=
  let m := mean win in
  let sq := (λ x, xmul (xsub x m) (xsub x m)) <$> win in
  xsqrt (xdiv (xsum sq) (Fin (Q_of_nat (length win - 1)))).

(** [s.rolling(window=w).agg()]: the aggregate of the trailing [w]
    observations; NaN while fewer than [w] observations are in the window,
    where a NaN does not count and an infinity is taken for a NaN. *)
Definition rolling (w : nat) (agg : list xfloat → xfloat) (s : list xfloat)
  : list xfloat :=
  (λ i, let win := take w (drop (i + 1 - w) s) in
        if bool_decide (w ≤ i + 1) && forallb is_finite win
        then agg win else NaN) <$> seq 0 (length s).

Definition ewm_alpha (span : nat) : Q := 2 / (Q_of_nat span + 1).

(** The loop of [s.ewm(span, adjust=False).mean()] after the first element:
    [weighted] is the running average and [old_wt] its weight (which grows
    over skipped NaN observations). *)
Fixpoint ewm_loop (alpha : Q) (weighted : xfloat) (old_wt : Q)
    (vals : list xfloat) : list xfloat :=
  match vals with
  | [] => []
  | cur :: rest =>
      let '(weighted', old_wt') :=
        if is_nan weighted then (cur, old_wt)
        else
          let old_wt1 := (old_wt * (1 - alpha))%Q in
          if is_nan cur then (weighted, old_wt1)
          else (xdiv (xadd (xmul (Fin old_wt1) weighted) (xmul (Fin alpha) cur))
                     (Fin (old_wt1 + alpha)), 1%Q)
      in
      weighted' :: ewm_loop alpha weighted' old_wt' rest
  end.

Definition ewm_mean (span : nat) (s : list xfloat) : list xfloat :=
  match s with
  | [] => []
  | v0 :: rest => v0 :: ewm_loop (ewm_alpha span) v0 1 rest
  end.

(** [s.diff()] *)
Definition diff (s : list xfloat) : list xfloat :=
  match s with
  | [] => []
  | _ :: tl => NaN :: zip_with xsub tl s
  end.

(** [s.where(cond, other)] *)
Definition where_ (cond : xfloat → bool) (other : xfloat) (s : list xfloat)
  : list xfloat :=
  (λ x, if cond x then x else other) <$> s.

(** [s.shift(k)] *)
Definition shift (k : nat) (s : list xfloat) : list xfloat :=
  take (length s) (replicate k NaN ++ s).

(** Elementwise arithmetic of two series on the same index. *)
Definition s_add := zip_with xadd.
Definition s_sub := zip_with xsub.
Definition s_div := zip_with xdiv.

(** ** [calculate_technical_indicators] *)

Section Indicators.
Context `{FloatSqrt}.

(** The body of the loop, for one symbol's frame. *)
Definition indicators_of (data : DataFrame) : exn + DataFrame :=
  let df := data in
  (* Simple Moving Averages *)
  close ← df_get df "Close";
  let df := df_set df "SMA_20" (rolling 20 mean close) in
  close ← df_get df "Close";
  let df := df_set df "SMA_50" (rolling 50 mean close) in
  close ← df_get df "Close";
  let df := df_set df "SMA_200" (rolling 200 mean close) in
  (* Exponential Moving Averages *)
  close ← df_get df "Close";
  let df := df_set df "EMA_12" (ewm_mean 12 close) in
  close ← df_get df "Close";
  let df := df_set df "EMA_26" (ewm_mean 26 close) in
  (* MACD *)
  ema12 ← df_get df "EMA_12";
  ema26 ← df_get df "EMA_26";
  let df := df_set df "MACD" (s_sub ema12 ema26) in
  macd ← df_get df "MACD";
  let df := df_set df "MACD_Signal" (ewm_mean 9 macd) in
  macd ← df_get df "MACD";
  signal ← df_get df "MACD_Signal";
  let df := df_set df "MACD_Hist" (s_sub macd signal) in
  (* Relative Strength Index *)
  close ← df_get df "Close";
  let delta := diff close in
  let gain := where_ (λ d, xltb (Fin 0) d) (Fin 0) delta in
  let loss := xopp <$> where_ (λ d, xltb d (Fin 0)) (Fin 0) delta in
  let avg_gain := rolling 14 mean gain in
  let avg_loss := rolling 14 mean loss in
  let rs := s_div avg_gain avg_loss in
  let df := df_set df "RSI"
              ((λ r, xsub (Fin 100) (xdiv (Fin 100) (xadd (Fin 1) r))) <$> rs) in
  (* Bollinger Bands *)
  close ← df_get df "Close";
  let df := df_set df "BB_Middle" (rolling 20 mean close) in
  close ← df_get df "Close";
  let df := df_set df "BB_Std" (rolling 20 std close) in
  middle ← df_get df "BB_Middle";
  sd ← df_get df "BB_Std";
  let df := df_set df "BB_Upper" (s_add middle (xmul (Fin 2) <$> sd)) in
  middle ← df_get df "BB_Middle";
  sd ← df_get df "BB_Std";
  let df := df_set df "BB_Lower" (s_sub middle (xmul (Fin 2) <$> sd)) in
  upper ← df_get df "BB_Upper";
  lower ← df_get df "BB_Lower";
  middle ← df_get df "BB_Middle";
  let df := df_set df "BB_Width" (s_div (s_sub upper lower) middle) in
  (* Momentum *)
  close ← df_get df "Close";
  let df := df_set df "Momentum" (s_div close (shift 10 close)) in
  mret df.

End Indicators.

(** ** scikit-learn: [MinMaxScaler(feature_range=(0, 1))] and the metric *)

(** Input validation: at least one sample, no infinity, and no NaN unless
    allowed. *)
Definition check_array (allow_nan : bool) (X : list xfloat) : exn + list xfloat :=
  if bool_decide (X = []) then raise ValueError
  else if existsb is_inf X then raise ValueError
  else if negb allow_nan && existsb is_nan X then raise ValueError
  else inr X.

Definition nan_min2 (a b : xfloat) : xfloat :=
  match a, b with
  | NaN, _ => b
  | _, NaN => a
  | _, _ => if xleb a b then a else b
  end.

Definition nan_max2 (a b : xfloat) : xfloat :=
  match a, b with
  | NaN, _ => b
  | _, NaN => a
  | _, _ => if xleb a b then b else a
  end.

Definition nanmin (X : list xfloat) : xfloat := foldr nan_min2 NaN X.
Definition nanmax (X : list xfloat) : xfloat := foldr nan_max2 NaN X.

(** The machine epsilon of binary64, [2^-52]. *)
Definition eps : Q := 1 # 4503599627370496.

(** A range below ten machine epsilons (a constant feature, or one whose
    range is rounding noise) is scaled by 1: [scale[scale < 10 * eps] = 1.0].
    A NaN range fails the comparison and stays. *)
Definition handle_zeros_in_scale (scale : xfloat) : xfloat :=
  if xltb scale (Fin (10 * eps)) then Fin 1 else scale.

Record MinMaxScaler : Type := {
  data_min_ : xfloat;
  data_max_ : xfloat;
  data_range_ : xfloat;
  scale_ : xfloat;
  min_ : xfloat;
}.

Definition scaler_fit (X : list xfloat) : exn + MinMaxScaler :=
  X ← check_array true X;
  let data_min := nanmin X in
  let data_max := nanmax X in
  let data_range := xsub data_max data_min in
  let scale := xdiv (xsub (Fin 1) (Fin 0)) (handle_zeros_in_scale data_range) in
  mret {| data_min_ := data_min; data_max_ := data_max;
          data_range_ := data_range; scale_ := scale;
          min_ := xsub (Fin 0) (xmul data_min scale) |}.

Definition transform1 (s : MinMaxScaler) (x : xfloat) : xfloat :=
  xadd (xmul x (scale_ s)) (min_ s).

Definition inverse1 (s : MinMaxScaler) (y : xfloat) : xfloat :=
  xdiv (xsub y (min_ s)) (scale_ s).

Definition scaler_transform (s : MinMaxScaler) (X : list xfloat) : exn + list xfloat :=
  X ← check_array true X;
  mret (transform1 s <$> (X : list xfloat)).

Definition scaler_inverse_transform (s : MinMaxScaler) (X : list xfloat)
  : exn + list xfloat :=
  X ← check_array true X;
  mret (inverse1 s <$> (X : list xfloat)).

Definition scaler_fit_transform (X : list xfloat) : exn + (MinMaxScaler * list xfloat) :=
  s ← scaler_fit X;
  Y ← scaler_transform s X;
  mret (s, Y).

Definition mean_squared_error (y_true y_pred : list xfloat) : exn + xfloat :=
  y_true ← check_array false y_true;
  y_pred ← check_array false y_pred;
  if bool_decide (length y_true = length y_pred)
  then mret (mean ((λ d, xmul d d) <$> s_sub y_true y_pred))
  else raise ValueError.

(** ** The sequence regressor

    The Keras model is opaque: building, compiling and fitting it on the
    training windows yields some model, and a model maps one window to one
    value. *)
Class Regressor : Type := {
  Model : Type;
  keras_fit : list (list xfloat) → list xfloat → Model;
  keras_predict : Model → list xfloat → xfloat;
}.

(** ** [train_predict_lstm] *)

(** [int(np.ceil(n * 0.8))]: the ceiling of the exact product (the rounding
    of [n * 0.8] in binary64 does not move the ceiling for any length below
    2^50). *)
Definition training_len (n : nat) : nat :=
  Z.to_nat (Qceiling (Q_of_nat n * (8 # 10))).

(** The window of [t] values that ends just before position [i]: what
    [data[i-t:i]] is for [t <= i <= len(data)]. *)
Definition window_before (t : nat) (data : list xfloat) (i : nat) : list xfloat :=
  take t (drop (i - t) data).

(** The windowing loop
    [for i in range(time_steps, len(data)): x.append(data[i-time_steps:i]); y.append(data[i])]. *)
Definition window_step (time_steps : nat) (data : list xfloat)
    (acc : list (list xfloat) * list xfloat) (i : nat)
  : exn + (list (list xfloat) * list xfloat) :=
  v ← item data i;
  mret (acc.1 ++ [slice (Z.of_nat i - Z.of_nat time_steps) (Z.of_nat i) data],
        acc.2 ++ [v]).

Definition windows (time_steps : nat) (data : list xfloat)
  : exn + (list (list xfloat) * list xfloat) :=
  for_each (window_step time_steps data) ([], []) (range time_steps (length data)).

(** The same loop without targets (the test inputs). *)
Definition input_windows (time_steps : nat) (data : list xfloat) : list (list xfloat) :=
  foldl (λ x i, x ++ [slice (Z.of_nat i - Z.of_nat time_steps) (Z.of_nat i) data])
        [] (range time_steps (length data)).

(** [pd.date_range(start=start, periods=periods)], daily: a negative number
    of periods is refused, and so is a range whose last timestamp
    [start + (periods - 1) * day] lies beyond the last 64-bit timestamp. *)
Definition date_range (start : Z) (periods : Z) : exn + list Z :=
  if (periods <? 0)%Z then raise ValueError
  else if (0 <? periods)%Z && (i8max <? start + (periods - 1) * day)%Z
  then raise OutOfBoundsDatetime
  else mret ((λ k, (start + Z.of_nat k * day)%Z) <$> seq 0 (Z.to_nat periods)).

(** [pd.DataFrame(data={c: values})] followed by [set_index]: the index and
    the column must be equally long. *)
Definition frame_of (idx : list Z) (c : string) (values : list xfloat) : exn + DataFrame :=
  if bool_decide (length idx = length values)
  then mret {| index := idx; columns := {[ c := values ]} |}
  else raise ValueError.

Section Forecast.
Context `{FloatSqrt} `{Regressor}.

(** One iteration of the future rollout: predict on the current window, record
    the prediction, drop the oldest value and append the prediction. *)
Definition rollout_step (model : Model) (time_steps : nat)
    (st : list xfloat * list xfloat) (_ : nat) : exn + (list xfloat * list xfloat) :=
  let '(current_sequence, future_predictions) := st in
  let pred := keras_predict model current_sequence in
  let future_predictions := future_predictions ++ [pred] in
  let new_sequence := drop 1 current_sequence ++ [pred] in
  current_sequence ← reshape_1_k_1 time_steps new_sequence;
  mret (current_sequence, future_predictions).

Definition rollout (model : Model) (time_steps : nat) (last_sequence : list xfloat)
    (prediction_days : Z) : exn + (list xfloat * list xfloat) :=
  for_each (rollout_step model time_steps) (last_sequence, [])
           (range 0 (Z.to_nat prediction_days)).

(** The values of the local variables when the function returns. *)
Record LstmRun : Type := {
  close_prices : list xfloat;
  scaler : MinMaxScaler;
  scaled_data : list xfloat;
  training_data_len : nat;
  train_data : list xfloat;
  x_train : list (list xfloat);
  y_train : list xfloat;
  model : Model;
  test_data : list xfloat;
  x_test : list (list xfloat);
  y_test : list xfloat;
  predictions : list xfloat;
  rmse : xfloat;
  last_sequence : list xfloat;
  future_predictions : list xfloat;
  last_date : Z;
  future_dates : list Z;
  future_df : DataFrame;
}.

(** The body of [train_predict_lstm] on the symbol's frame, with the number
    of look-back steps as a parameter. *)
Definition lstm_run (time_steps : nat) (data : DataFrame) (prediction_days : Z)
  : exn + LstmRun :=
  close_prices ← df_get data "Close";
  (* Scale the data *)
  '(scaler, scaled_data) ← scaler_fit_transform close_prices;
  let training_data_len := training_len (length scaled_data) in
  let train_data := slice 0 (Z.of_nat training_data_len) scaled_data in
  '(x_train, y_train) ← windows time_steps train_data;
  x_train ← reshape_windows x_train;
  let model := keras_fit x_train y_train in
  (* Test data *)
  let test_data :=
    slice_from (Z.of_nat training_data_len - Z.of_nat time_steps) scaled_data in
  let y_test := slice_from (Z.of_nat training_data_len) close_prices in
  let x_test := input_windows time_steps test_data in
  x_test ← reshape_windows x_test;
  let predictions := keras_predict model <$> x_test in
  predictions ← scaler_inverse_transform scaler predictions;
  mse ← mean_squared_error y_test predictions;
  let rmse := xsqrt mse in
  (* Make future predictions *)
  last_sequence ← reshape_1_k_1 time_steps (slice_from (- Z.of_nat time_steps) scaled_data);
  '(_, future_predictions) ← rollout model time_steps last_sequence prediction_days;
  future_predictions ← scaler_inverse_transform scaler future_predictions;
  last_date ← item_last (index data);
  start ← timestamp_add last_date day;
  future_dates ← date_range start prediction_days;
  future_df ← frame_of future_dates "Predicted_Close" future_predictions;
  mret {| close_prices := close_prices; scaler := scaler;
          scaled_data := scaled_data; training_data_len := training_data_len;
          train_data := train_data; x_train := x_train; y_train := y_train;
          model := model; test_data := test_data; x_test := x_test;
          y_test := y_test; predictions := predictions; rmse := rmse;
          last_sequence := last_sequence;
          future_predictions := future_predictions; last_date := last_date;
          future_dates := future_dates; future_df := future_df |}.

End Forecast.

(** ** The analysis system: the attributes of [self] *)

(** An entry of [self.predictions]. *)
Record Prediction : Type := {
  historical : list xfloat;
  future : DataFrame;
  pred_rmse : xfloat;
  pred_scaler : MinMaxScaler;
  pred_time_steps : nat;
}.

Record StockAnalysisSystem `{Regressor} : Type := {
  stock_data : gmap string DataFrame;
  market_data : option DataFrame;
  models : gmap string Model;
  symbol_predictions : gmap string Prediction;
  technical_indicators : gmap string DataFrame;
}.

Section System.
Context `{FloatSqrt} `{Regressor}.

(** [__init__] *)
Definition init : StockAnalysisSystem :=
  {| stock_data := ∅; market_data := None; models := ∅;
     symbol_predictions := ∅; technical_indicators := ∅ |}.

Definition calculate_technical_indicators (self : StockAnalysisSystem)
  : exn + StockAnalysisSystem :=
  ti ← for_each (λ ti '(symbol, data),
                   df ← indicators_of data;
                   mret (<[symbol := df]> ti))
                (technical_indicators self) (map_to_list (stock_data self));
  mret {| stock_data := stock_data self; market_data := market_data self;
          models := models self; symbol_predictions := symbol_predictions self;
          technical_indicators := ti |}.

Definition train_predict_lstm (self : StockAnalysisSystem) (symbol : string)
    (prediction_days : Z)
  : exn + (StockAnalysisSystem * (Model * list xfloat * DataFrame * xfloat)) :=
  data ← match stock_data self !! symbol with
         | Some d => inr d
         | None => raise KeyError
         end;
  let time_steps := 60 in
  r ← lstm_run time_steps data prediction_days;
  let self' :=
    {| stock_data := stock_data self; market_data := market_data self;
       models := <[symbol := model r]> (models self);
       symbol_predictions :=
         <[symbol := {| historical := predictions r; future := future_df r;
                        pred_rmse := rmse r; pred_scaler := scaler r;
                        pred_time_steps := time_steps |}]>
           (symbol_predictions self);
       technical_indicators := technical_indicators self |} in
  mret (self', (model r, predictions r, future_df r, rmse r)).

End System.

(** ** [collect_stock_data]: the return columns

    The frame itself comes from the data provider.  On a fetched, non-empty
    frame the function adds the symbol column (text, not modelled) and the
    two return columns below; the market frame gets the same two columns. *)

(** [s.pct_change()] *)
Definition pct_change (s : list xfloat) : list xfloat :=
  (λ r, xsub r (Fin 1)) <$> s_div s (shift 1 s).

(** [s.cumprod()]: the running product; a NaN entry stays NaN and is left
    out of the product. *)
Fixpoint cumprod_from (acc : xfloat) (s : list xfloat) : list xfloat :=
  match s with
  | [] => []
  | x :: rest =>
      if is_nan x then NaN :: cumprod_from acc rest
      else let acc' := xmul acc x in acc' :: cumprod_from acc' rest
  end.

Definition cumprod (s : list xfloat) : list xfloat := cumprod_from (Fin 1) s.

Definition add_returns (data : DataFrame) : exn + DataFrame :=
  (* Calculate daily returns *)
  close ← df_get data "Close";
  let data :=
    df_set data "Daily_Return" ((λ r, xmul r (Fin 100)) <$> pct_change close) in
  (* Calculate cumulative returns *)
  daily ← df_get data "Daily_Return";
  let data :=
    df_set data "Cum_Return"
      ((λ p, xsub p (Fin 1))
         <$> cumprod ((λ d, xadd (Fin 1) (xdiv d (Fin 100))) <$> daily)) in
  cum ← df_get data "Cum_Return";
  let data := df_set data "Cum_Return" ((λ c, xmul c (Fin 100)) <$> cum) in
  mret data.

(** ** [portfolio_performance_analysis]: the period return

    The year-to-date and the one-month figure are both computed from the
    cumulative return at the first date of the period and at the latest date,
    by this expression. *)
Definition period_return (first_value latest_value : xfloat) : xfloat :=
  xmul (xdiv (xsub latest_value first_value)
             (xadd (Fin 1) (xdiv first_value (Fin 100))))
       (Fin 100).

(** ** [visualize_predictions] and the recommendation block of the report *)


(** A line of the conclusion of the report, with the percentage it prints. *)
Inductive Recommendation : Type :=
| Buy (increase : xfloat)
| Sell (decrease : xfloat)
| Hold
| Unable.

Section Report.
Context `{Regressor}.


(** The body of the last loop of [export_analysis_report], for one symbol:
    nothing for a symbol without predictions, and otherwise the line that the
    [try] block adds, [Unable] when anything in the block raises.  Only this
    block is embedded: the statements of the function that come before the
    loop (the market chart, the figures of each symbol, the portfolio
    section) are not, and those outside a [try] can raise before the loop is
    reached, as the market chart does on a system without market data. *)
Definition recommendation (self : StockAnalysisSystem) (symbol : string)
  : option Recommendation :=
  match symbol_predictions self !! symbol with
  | None => None
  | Some predictions =>
      let attempt : exn + Recommendation :=
        data ← match stock_data self !! symbol with
               | Some d => inr d
               | None => raise KeyError
               end;
        close ← df_get data "Close";
        last_price ← item_last close;
        predicted ← df_get (future predictions) "Predicted_Close";
        future_price ← item_last predicted;
        if xltb (xmul last_price (Fin (105 # 100))) future_price then
          mret (Buy (xmul (xsub (xdiv future_price last_price) (Fin 1)) (Fin 100)))
        else if xltb future_price (xmul last_price (Fin (95 # 100))) then
          mret (Sell (xmul (xsub (xdiv last_price future_price) (Fin 1)) (Fin 100)))
        else mret Hold
      in
      Some (match attempt with inl _ => Unable | inr r => r end)
  end.

End Report.

(** ** Notions used in the statements *)

(** The derived columns that are read back, as functions of the closes. *)
Definition macd_of (close : list xfloat) : list xfloat :=
  s_sub (ewm_mean 12 close) (ewm_mean 26 close).

(** The lines of the relative strength index. *)
Definition rsi_of (close : list xfloat) : list xfloat :=
  let delta := diff close in
  let gain := where_ (λ d, xltb (Fin 0) d) (Fin 0) delta in
  let loss := xopp <$> where_ (λ d, xltb d (Fin 0)) (Fin 0) delta in
  let avg_gain := rolling 14 mean gain in
  let avg_loss := rolling 14 mean loss in
  let rs := s_div avg_gain avg_loss in
  (λ r, xsub (Fin 100) (xdiv (Fin 100) (xadd (Fin 1) r))) <$> rs.

(** The recurrence of an exponential moving average with smoothing factor
    [k], seeded with the first price. *)
Definition is_ema (k : Q) (price : list Q) (ema : list xfloat) : Prop :=
  length ema = length price
  ∧ ∀ i p, price !! i = Some p →
      ∃ e, ema !! i = Some (Fin e)
        ∧ match i with
          | 0 => (e == p)%Q
          | S i' => ∃ e', ema !! i' = Some (Fin e')
                          ∧ (e == p * k + e' * (1 - k))%Q
          end.

(** The gains and losses of a series of finite closes, on rationals: the
    changes of close, and per change its positive part and the negation of
    its negative part; the first entry stands for the undefined first
    change, which [where] replaces by zero. *)
Definition deltas_q (price : list Q) : list Q :=
  zip_with (λ q p, q + - p)%Q (tail price) price.

Definition gain_q (d : Q) : Q := if Qlt_bool 0 d then d else 0%Q.

Definition loss_q (d : Q) : Q := (- (if Qlt_bool d 0 then d else 0))%Q.

Definition gains_q (price : list Q) : list Q :=
  match price with
  | [] => []
  | _ :: _ => 0%Q :: (gain_q <$> deltas_q price)
  end.

Definition losses_q (price : list Q) : list Q :=
  match price with
  | [] => []
  | _ :: _ => (- 0)%Q :: (loss_q <$> deltas_q price)
  end.

(** No close falls below its predecessor among the 14 changes that end at
    index [i]. *)
Definition no_fall (price : list Q) (i : nat) : Prop :=
  ∀ j p q, i ≤ j + 14 → j < i → price !! j = Some p → price !! S j = Some q →
    (p <= q)%Q.

(** No close rises above its predecessor among the 14 changes that end at
    index [i]. *)
Definition no_rise (price : list Q) (i : nat) : Prop :=
  ∀ j p q, i ≤ j + 14 → j < i → price !! j = Some p → price !! S j = Some q →
    (q <= p)%Q.

(** The columns that the computation adds. *)
Definition derived_columns : list string :=
  ["SMA_20"; "SMA_50"; "SMA_200"; "EMA_12"; "EMA_26"; "MACD"; "MACD_Signal";
   "MACD_Hist"; "RSI"; "BB_Middle"; "BB_Std"; "BB_Upper"; "BB_Lower";
   "BB_Width"; "Momentum"].

(** The columns with a warm-up gap, with the number of leading positions
    that are undefined. *)
Definition warmup_gaps : list (string * nat) :=
  [("SMA_20", 19); ("SMA_50", 49); ("SMA_200", 199); ("RSI", 13);
   ("BB_Middle", 19); ("BB_Std", 19); ("BB_Upper", 19); ("BB_Lower", 19);
   ("BB_Width", 19); ("Momentum", 10)].

Definition bb_upper_of `{FloatSqrt} (close : list xfloat) : list xfloat :=
  s_add (rolling 20 mean close) (xmul (Fin 2) <$> rolling 20 std close).

Definition bb_lower_of `{FloatSqrt} (close : list xfloat) : list xfloat :=
  s_sub (rolling 20 mean close) (xmul (Fin 2) <$> rolling 20 std close).

(** The ratios of consecutive closes and the running product, on
    rationals. *)
Definition ratios_q (price : list Q) : list Q :=
  zip_with Qdiv (tail price) price.

Fixpoint cumprod_q (acc : Q) (l : list Q) : list Q :=
  match l with
  | [] => []
  | x :: rest => (acc * x)%Q :: cumprod_q (acc * x) rest
  end.

(** The daily returns (from the second close on) and, from them, the
    cumulative returns, in percent. *)
Definition daily_q (price : list Q) : list Q :=
  (λ r, (r + - (1)) * 100)%Q <$> ratios_q price.

Definition cum_q (dq : list Q) : list Q :=
  (λ c, (c + - (1)) * 100)%Q <$> cumprod_q 1 ((λ d, 1 + d / 100)%Q <$> dq).

(** The columns that hold a simple moving average, with the window. *)
Definition sma_windows : list (string * nat) :=
  [("SMA_20", 20); ("SMA_50", 50); ("SMA_200", 200); ("BB_Middle", 20)].

(** The sample variance of a window, on rationals. *)
Definition var_q (win : list Q) : Q :=
  (Qsum ((λ x, (x + - (Qsum win / Q_of_nat (length win)))
               * (x + - (Qsum win / Q_of_nat (length win))))%Q <$> win)
   / Q_of_nat (length win - 1))%Q.

(** ** Concrete inputs *)

(** A square root on rationals, rounded down on the numerator. *)
Definition approx_sqrt : FloatSqrt :=
  λ q, (Z.sqrt (Qnum q * Z.pos (Qden q)) # Qden q).

(** The regressor that repeats the newest value of its window. *)
Definition persistence : Regressor :=
  {| Model := unit;
     keras_fit := λ _ _, ();
     keras_predict := λ _ w, default (Fin 0) (last w) |}.

(** A frame of [n] daily closes [f 0, f 1, ...]. *)
Definition daily_frame (f : nat → Q) (n : nat) : DataFrame :=
  {| index := (λ k, (Z.of_nat k * day)%Z) <$> seq 0 n;
     columns := {[ "Close" := (λ k, Fin (f k)) <$> seq 0 n ]} |}.

Definition ramp (k : nat) : Q := Q_of_nat (S k).

Definition flat (v : Q) (k : nat) : Q := v.

(** A system that has collected 100 closes for one symbol. *)
Definition sample_system : @StockAnalysisSystem persistence :=
  {| stock_data := {[ "AAPL" := daily_frame ramp 100 ]};
     market_data := None; models := ∅; symbol_predictions := ∅;
     technical_indicators := ∅ |}.

(** The same system with the market frame collected as well. *)
Definition collected_system : @StockAnalysisSystem persistence :=
  {| stock_data := {[ "AAPL" := daily_frame ramp 100 ]};
     market_data := Some (daily_frame ramp 100); models := ∅;
     symbol_predictions := ∅; technical_indicators := ∅ |}.



(** A system that has collected only 50 closes. *)
Definition short_system : @StockAnalysisSystem persistence :=
  {| stock_data := {[ "AAPL" := daily_frame ramp 50 ]};
     market_data := None; models := ∅; symbol_predictions := ∅;
     technical_indicators := ∅ |}.

(** A system whose only frame has no [Close] column. *)
Definition closeless_system : @StockAnalysisSystem persistence :=
  {| stock_data :=
       {[ "AAPL" := {| index := [0%Z]; columns := {[ "Open" := [Fin 1] ]} |} ]};
     market_data := None; models := ∅; symbol_predictions := ∅;
     technical_indicators := ∅ |}.

(** A system with three closes collected and a stale indicator frame. *)
Definition small_system : @StockAnalysisSystem persistence :=
  {| stock_data := {[ "AAPL" := daily_frame ramp 3 ]};
     market_data := None; models := ∅; symbol_predictions := ∅;
     technical_indicators := {[ "MSFT" := daily_frame ramp 2 ]} |}.

(** A system with three closes and a stored forecast that ends at 4. *)
Definition advised_system : @StockAnalysisSystem persistence :=
  {| stock_data := {[ "AAPL" := daily_frame ramp 3 ]};
     market_data := None; models := ∅;
     symbol_predictions :=
       {[ "AAPL" :=
            {| historical := [];
               future := {| index := [(3 * day)%Z];
                            columns := {[ "Predicted_Close" := [Fin 4] ]} |};
               pred_rmse := Fin 0;
               pred_scaler := {| data_min_ := Fin 1; data_max_ := Fin 3;
                                 data_range_ := Fin 2; scale_ := Fin (1 # 2);
                                 min_ := Fin (- (1 # 2)) |};
               pred_time_steps := 60 |} ]};
     technical_indicators := ∅ |}.

(** * Properties *)

(** ** Extended rationals *)

#[global] Instance xeq_equiv : Equivalence xeq.
Proof.
  split.
  - intros [a| | |]; simpl; auto. reflexivity.
  - intros [a| | |] [b| | |]; simpl; auto. intros ->. reflexivity.
  - intros [a| | |] [b| | |] [c| | |]; simpl; auto; try tauto.
    intros -> ->. reflexivity.
Qed.

Lemma Qlt_bool_iff (a b : Q) : Qlt_bool a b = true ↔ (a < b)%Q.
Proof.
  unfold Qlt_bool. rewrite negb_true_iff.
  destruct (Qle_bool b a) eqn:E.
  - apply Qle_bool_iff in E. split; [discriminate | intros; lra].
  - split; [intros _ | reflexivity].
    destruct (Qlt_le_dec a b) as [?|Hle]; [assumption |].
    apply Qle_bool_iff in Hle. congruence.
Qed.

Lemma Qlt_bool_false (a b : Q) : Qlt_bool a b = false ↔ (b <= a)%Q.
Proof.
  unfold Qlt_bool. rewrite negb_false_iff. apply Qle_bool_iff.
Qed.

Lemma Qeq_bool_false (a b : Q) : ¬ (a == b)%Q → Qeq_bool a b = false.
Proof.
  intros Hne. destruct (Qeq_bool a b) eqn:E; [| reflexivity].
  apply Qeq_bool_iff in E. contradiction.
Qed.

Lemma xdiv_fin (a b : Q) : ¬ (b == 0)%Q → xdiv (Fin a) (Fin b) = Fin (a / b).
Proof. intros Hb. simpl. rewrite Qeq_bool_false; auto. Qed.

(** ** The scaler *)

Lemma check_array_inr (allow_nan : bool) (X Y : list xfloat) :
  check_array allow_nan X = inr Y →
  Y = X ∧ X ≠ [] ∧ existsb is_inf X = false
  ∧ (allow_nan = false → existsb is_nan X = false).
Proof.
  unfold check_array. case_bool_decide; [discriminate |].
  destruct (existsb is_inf X); [discriminate |].
  destruct allow_nan; simpl.
  - intros [= <-]. repeat split; auto. discriminate.
  - destruct (existsb is_nan X); [discriminate |]. intros [= <-]. auto.
Qed.

Lemma existsb_finite (p : xfloat → bool) (X : list xfloat) :
  (∀ q, p (Fin q) = false) →
  Forall (λ x, is_finite x = true) X → existsb p X = false.
Proof.
  intros Hp. induction 1 as [|x l Hx _ IH]; [reflexivity |].
  simpl. rewrite IH. destruct x; try done. by rewrite Hp.
Qed.

Lemma check_array_finite (allow_nan : bool) (X : list xfloat) :
  X ≠ [] → Forall (λ x, is_finite x = true) X → check_array allow_nan X = inr X.
Proof.
  intros Hne Hfin. unfold check_array. rewrite bool_decide_eq_false_2 by done.
  rewrite !existsb_finite by done. by rewrite andb_false_r.
Qed.

Lemma nanmin_const (v : Q) (X : list xfloat) :
  X ≠ [] → Forall (λ x, xeq x (Fin v)) X → xeq (nanmin X) (Fin v).
Proof.
  intros Hne Hall. induction Hall as [|x l Hx Hl IH]; [done |].
  unfold nanmin in *. simpl. destruct l as [|y l].
  - simpl. destruct x; done.
  - specialize (IH ltac:(done)).
    destruct x as [a| | |], (foldr nan_min2 NaN (y :: l)) as [b| | |]; try done.
    simpl. destruct (xleb (Fin a) (Fin b)); done.
Qed.

Lemma nanmax_const (v : Q) (X : list xfloat) :
  X ≠ [] → Forall (λ x, xeq x (Fin v)) X → xeq (nanmax X) (Fin v).
Proof.
  intros Hne Hall. induction Hall as [|x l Hx Hl IH]; [done |].
  unfold nanmax in *. simpl. destruct l as [|y l].
  - simpl. destruct x; done.
  - specialize (IH ltac:(done)).
    destruct x as [a| | |], (foldr nan_max2 NaN (y :: l)) as [b| | |]; try done.
    simpl. destruct (xleb (Fin a) (Fin b)); done.
Qed.

Lemma const_finite (v : Q) (X : list xfloat) :
  Forall (λ x, xeq x (Fin v)) X → Forall (λ x, is_finite x = true) X.
Proof. intros Hall. eapply Forall_impl; [exact Hall |]. intros [a| | |]; done. Qed.

(** A fitted scaler is determined by the minimum and the maximum. *)
Lemma scaler_fit_inr (X : list xfloat) (s : MinMaxScaler) :
  scaler_fit X = inr s →
  check_array true X = inr X
  ∧ data_min_ s = nanmin X ∧ data_max_ s = nanmax X
  ∧ data_range_ s = xsub (data_max_ s) (data_min_ s)
  ∧ scale_ s = xdiv (xsub (Fin 1) (Fin 0))
                 (handle_zeros_in_scale (xsub (data_max_ s) (data_min_ s)))
  ∧ min_ s = xsub (Fin 0) (xmul (data_min_ s) (scale_ s)).
Proof.
  unfold scaler_fit. destruct (check_array true X) as [e|Y] eqn:E; [discriminate |].
  apply check_array_inr in E as E'. destruct E' as (-> & _).
  simpl. intros [= <-]. simpl. auto 10.
Qed.

Lemma scaler_fit_checked (X : list xfloat) :
  check_array true X = inr X → ∃ s, scaler_fit X = inr s.
Proof. intros E. unfold scaler_fit. rewrite E. simpl. eauto. Qed.

Lemma scaler_fit_transform_eq (X : list xfloat) (s : MinMaxScaler) :
  scaler_fit X = inr s → scaler_fit_transform X = inr (s, transform1 s <$> X).
Proof.
  intros Hfit. unfold scaler_fit_transform. rewrite Hfit.
  apply scaler_fit_inr in Hfit as (Hchk & _).
  unfold scaler_transform. cbn [mbind exn_bind]. rewrite Hchk. reflexivity.
Qed.

Lemma eps_pos : (0 < 10 * eps)%Q.
Proof. reflexivity. Qed.

(** On a range below ten machine epsilons the scale is 1, the transform a
    shift by the minimum and the inverse transform the shift back. *)
Lemma scaler_degenerate (s : MinMaxScaler) (lo hi : Q) :
  data_min_ s = Fin lo → data_max_ s = Fin hi → (hi - lo < 10 * eps)%Q →
  scale_ s = xdiv (xsub (Fin 1) (Fin 0))
               (handle_zeros_in_scale (xsub (data_max_ s) (data_min_ s))) →
  min_ s = xsub (Fin 0) (xmul (data_min_ s) (scale_ s)) →
  xeq (scale_ s) (Fin 1)
  ∧ (∀ x, xeq (transform1 s (Fin x)) (Fin (x - lo)))
  ∧ (∀ y, xeq (inverse1 s (Fin y)) (Fin (y + lo))).
Proof.
  intros Hlo Hhi Hlt Hscale Hmin.
  assert (Hz : Qlt_bool (hi + - lo) (10 * eps) = true)
    by (apply Qlt_bool_iff; exact Hlt).
  rewrite Hlo, Hhi in Hscale. unfold handle_zeros_in_scale in Hscale.
  cbn [xsub xopp xadd xltb] in Hscale. rewrite Hz in Hscale.
  rewrite xdiv_fin in Hscale by (intros E; vm_compute in E; discriminate).
  rewrite Hlo, Hscale in Hmin. cbn [xsub xopp xadd xmul] in Hmin.
  unfold transform1, inverse1. rewrite Hscale, Hmin.
  split; [simpl; field |]. split.
  - intros x. simpl. field.
  - intros y. cbn [xsub xopp xadd].
    rewrite xdiv_fin by (intros E; vm_compute in E; discriminate).
    simpl. field.
Qed.

(** On a range of at least ten machine epsilons the scaler computes the
    affine map of the range onto [0, 1] and its inverse. *)
Lemma scaler_affine (s : MinMaxScaler) (lo hi : Q) :
  data_min_ s = Fin lo → data_max_ s = Fin hi → (10 * eps <= hi - lo)%Q →
  scale_ s = xdiv (xsub (Fin 1) (Fin 0))
               (handle_zeros_in_scale (xsub (data_max_ s) (data_min_ s))) →
  min_ s = xsub (Fin 0) (xmul (data_min_ s) (scale_ s)) →
  (∀ x, xeq (transform1 s (Fin x)) (Fin ((x - lo) / (hi - lo))))
  ∧ (∀ y, xeq (inverse1 s (Fin y)) (Fin (y * (hi - lo) + lo))).
Proof.
  intros Hlo Hhi Hge Hscale Hmin.
  pose proof eps_pos as Heps.
  assert (Hr : ¬ (hi + - lo == 0)%Q) by (intros E; lra).
  assert (Hz : Qlt_bool (hi + - lo) (10 * eps) = false)
    by (apply Qlt_bool_false; exact Hge).
  rewrite Hlo, Hhi in Hscale. unfold handle_zeros_in_scale in Hscale.
  cbn [xsub xopp xadd xltb] in Hscale. rewrite Hz in Hscale.
  rewrite xdiv_fin in Hscale by exact Hr.
  rewrite Hlo, Hscale in Hmin. simpl in Hmin.
  unfold transform1, inverse1. rewrite Hscale, Hmin.
  assert (Hs : ¬ ((1 + - 0) / (hi + - lo) == 0)%Q).
  { intros E. apply Hr.
    assert (E' : ((1 + - 0) / (hi + - lo) * (hi + - lo) == 0)%Q) by (rewrite E; ring).
    field_simplify in E'; [lra | exact Hr]. }
  split.
  - intros x. simpl. field. intros E. apply Hr. lra.
  - intros y. simpl. rewrite (Qeq_bool_false _ _ Hs). simpl. field.
    intros E. apply Hr. lra.
Qed.

(** ** C1 *)

(** C1, as amended: fitting the scaler on a constant series does not fail.
    For every non-empty series whose closes all equal [v], [fit_transform]
    returns a scaler with minimum and maximum [v], range 0 and scale 1, and
    one scaled value 0 per close. *)
Theorem constant_series_scales_to_zero (v : Q) (X : list xfloat) :
  X ≠ [] → Forall (λ x, xeq x (Fin v)) X →
  ∃ s Y, scaler_fit_transform X = inr (s, Y)
    ∧ xeq (data_min_ s) (Fin v) ∧ xeq (data_max_ s) (Fin v)
    ∧ xeq (data_range_ s) (Fin 0) ∧ xeq (scale_ s) (Fin 1)
    ∧ length Y = length X ∧ Forall (λ y, xeq y (Fin 0)) Y.
Proof.
  intros Hne Hall.
  pose proof (nanmin_const v X Hne Hall) as Hmin.
  pose proof (nanmax_const v X Hne Hall) as Hmax.
  pose proof (check_array_finite true X Hne (const_finite v X Hall)) as Hchk.
  destruct (scaler_fit_checked X Hchk) as [s Hfit].
  exists s, (transform1 s <$> X).
  split; [by apply scaler_fit_transform_eq |].
  apply scaler_fit_inr in Hfit as (_ & Elo & Ehi & Hrange & Hscale & Hmin').
  rewrite <- Elo in Hmin. rewrite <- Ehi in Hmax.
  destruct (data_min_ s) as [lo| | |] eqn:Hlo; try done.
  destruct (data_max_ s) as [hi| | |] eqn:Hhi; try done.
  simpl in Hmin, Hmax.
  assert (Hlh : (hi - lo < 10 * eps)%Q) by (pose proof eps_pos; lra).
  rewrite <- Hlo, <- Hhi in Hscale. rewrite <- Hlo in Hmin'.
  destruct (scaler_degenerate s lo hi Hlo Hhi Hlh Hscale Hmin') as (Hs & Ht & _).
  repeat split; try done.
  - rewrite Hrange. simpl. lra.
  - by rewrite length_fmap.
  - apply Forall_fmap. eapply Forall_impl; [exact Hall |].
    intros [a| | |]; try done. simpl. intros Ha.
    rewrite (Ht a). simpl. lra.
Qed.

(** The scenario of the spec: 100 identical closes. *)
Lemma constant_series_scales_to_zero_witness :
  ∃ s Y, scaler_fit_transform (replicate 100 (Fin 7)) = inr (s, Y)
    ∧ xeq (data_min_ s) (Fin 7) ∧ xeq (data_max_ s) (Fin 7)
    ∧ xeq (data_range_ s) (Fin 0) ∧ xeq (scale_ s) (Fin 1)
    ∧ length Y = length (replicate 100 (Fin 7))
    ∧ Forall (λ y, xeq y (Fin 0)) Y.
Proof.
  apply (constant_series_scales_to_zero 7 (replicate 100 (Fin 7))).
  - discriminate.
  - apply Forall_replicate. simpl. reflexivity.
Defined.

(** C1 as stated fails: on 100 identical closes the fit raises nothing. *)
Lemma constant_series_fit_does_not_fail :
  ¬ ∃ e, scaler_fit (replicate 100 (Fin 7)) = inl e.
Proof. intros [e He]. vm_compute in He. discriminate. Qed.

(** ** C5 *)

(** C5, as amended: for a scaler fitted on a series with minimum [lo] and
    maximum [hi], the inverse transform of the transform of [x] is [x], for
    every [x].  When the range [hi - lo] is at least ten machine epsilons the
    transform is [(x - lo) / (hi - lo)] and the inverse transform
    [y * (hi - lo) + lo].  When the range is smaller, constant series or
    not, the scale is 1: the transform is [x - lo] and the inverse transform
    [y + lo]. *)
Theorem scaler_round_trip (X : list xfloat) (s : MinMaxScaler) (lo hi x : Q) :
  scaler_fit X = inr s →
  data_min_ s = Fin lo → data_max_ s = Fin hi →
  xeq (inverse1 s (transform1 s (Fin x))) (Fin x)
  ∧ ((10 * eps <= hi - lo)%Q →
     xeq (transform1 s (Fin x)) (Fin ((x - lo) / (hi - lo)))
     ∧ ∀ y, xeq (inverse1 s (Fin y)) (Fin (y * (hi - lo) + lo)))
  ∧ ((hi - lo < 10 * eps)%Q →
     xeq (scale_ s) (Fin 1)
     ∧ xeq (transform1 s (Fin x)) (Fin (x - lo))
     ∧ ∀ y, xeq (inverse1 s (Fin y)) (Fin (y + lo))).
Proof.
  intros Hfit Hlo Hhi.
  apply scaler_fit_inr in Hfit as (_ & _ & _ & _ & Hscale & Hmin).
  pose proof eps_pos as Heps.
  split; [| split].
  - destruct (Qlt_le_dec (hi - lo) (10 * eps)) as [Hlt|Hge].
    + destruct (scaler_degenerate s lo hi Hlo Hhi Hlt Hscale Hmin) as (_ & Ht & Hi).
      specialize (Ht x). destruct (transform1 s (Fin x)) as [y| | |]; try done.
      simpl in Ht. rewrite (Hi y). simpl. rewrite Ht. ring.
    + destruct (scaler_affine s lo hi Hlo Hhi Hge Hscale Hmin) as [Ht Hi].
      specialize (Ht x). destruct (transform1 s (Fin x)) as [y| | |]; try done.
      simpl in Ht. rewrite (Hi y). simpl. rewrite Ht. field. lra.
  - intros Hge.
    destruct (scaler_affine s lo hi Hlo Hhi Hge Hscale Hmin) as [Ht Hi].
    split; [apply Ht | apply Hi].
  - intros Hlt.
    destruct (scaler_degenerate s lo hi Hlo Hhi Hlt Hscale Hmin) as (Hs & Ht & Hi).
    split; [exact Hs |]. split; [apply Ht | apply Hi].
Qed.

Lemma scaler_round_trip_witness :
  ∃ s, scaler_fit [Fin 1; Fin 3; Fin 2] = inr s
    ∧ xeq (inverse1 s (transform1 s (Fin 2))) (Fin 2)
    ∧ ((10 * eps <= 3 - 1)%Q →
       xeq (transform1 s (Fin 2)) (Fin ((2 - 1) / (3 - 1)))
       ∧ ∀ y, xeq (inverse1 s (Fin y)) (Fin (y * (3 - 1) + 1)))
    ∧ ((3 - 1 < 10 * eps)%Q →
       xeq (scale_ s) (Fin 1)
       ∧ xeq (transform1 s (Fin 2)) (Fin (2 - 1))
       ∧ ∀ y, xeq (inverse1 s (Fin y)) (Fin (y + 1))).
Proof.
  eexists. split; [reflexivity |].
  eapply (scaler_round_trip [Fin 1; Fin 3; Fin 2] _ 1 3 2).
  - reflexivity.
  - reflexivity.
  - reflexivity.
Defined.

(** C5 as stated fails: the closes 1 and [1 + 2^-50] are not constant, but
    their range is below ten machine epsilons, so the scale is 1: the
    maximum is transformed to [2^-50], not to [(x - lo) / (hi - lo) = 1], and
    the inverse transform of 1 is 2, not [1 * (hi - lo) + lo]. *)
Lemma tiny_range_is_not_rescaled :
  let lo := 1%Q in
  let hi := (1 + (1 # 1125899906842624))%Q in
  ∃ s, scaler_fit [Fin lo; Fin hi] = inr s
    ∧ data_min_ s = Fin lo ∧ data_max_ s = Fin hi ∧ ¬ (lo == hi)%Q
    ∧ xeq (transform1 s (Fin hi)) (Fin (1 # 1125899906842624))
    ∧ ¬ xeq (transform1 s (Fin hi)) (Fin ((hi - lo) / (hi - lo)))
    ∧ xeq (inverse1 s (Fin 1)) (Fin 2)
    ∧ ¬ xeq (inverse1 s (Fin 1)) (Fin (1 * (hi - lo) + lo)).
Proof.
  eexists. split; [reflexivity |].
  split; [vm_compute; reflexivity |]. split; [vm_compute; reflexivity |].
  repeat split; try (vm_compute; reflexivity);
    intros E; vm_compute in E; discriminate.
Qed.

(** ** Slices, loops and windows *)

Lemma training_len_eq (n : nat) : training_len n = (4 * n + 4) `div` 5.
Proof.
  unfold training_len, Qceiling, Qfloor, Q_of_nat, Qopp, Qmult, inject_Z.
  cbn [Qnum Qden]. change (Z.pos (1 * 10)) with 10%Z.
  rewrite <- (Nat2Z.id ((4 * n + 4) `div` 5)). f_equal.
  rewrite Nat2Z.inj_div. change (Z.of_nat 5) with 5%Z.
  pose proof (Z.div_mod (- (Z.of_nat n * 8)) 10 ltac:(lia)) as H1.
  pose proof (Z.mod_pos_bound (- (Z.of_nat n * 8)) 10 ltac:(lia)) as H2.
  pose proof (Z.div_mod (Z.of_nat (4 * n + 4)) 5 ltac:(lia)) as H3.
  pose proof (Z.mod_pos_bound (Z.of_nat (4 * n + 4)) 5 ltac:(lia)) as H4.
  lia.
Qed.

Lemma training_len_le (n : nat) : training_len n ≤ n.
Proof.
  rewrite training_len_eq.
  apply Nat.lt_succ_r, Nat.Div0.div_lt_upper_bound. lia.
Qed.

Lemma slice_bound_nat (n i : nat) : slice_bound n (Z.of_nat i) = i `min` n.
Proof.
  unfold slice_bound. destruct (Z.ltb_spec (Z.of_nat i) 0); [lia |].
  by rewrite Nat2Z.id.
Qed.

Lemma slice_window {A} (t i : nat) (l : list A) :
  t ≤ i ≤ length l →
  slice (Z.of_nat i - Z.of_nat t) (Z.of_nat i) l = take t (drop (i - t) l).
Proof.
  intros Hi. unfold slice.
  replace (Z.of_nat i - Z.of_nat t)%Z with (Z.of_nat (i - t)) by lia.
  rewrite !slice_bound_nat.
  replace ((i - t) `min` length l) with (i - t) by lia.
  replace (i `min` length l - (i - t)) with t by lia.
  reflexivity.
Qed.

Lemma slice_prefix {A} (k : nat) (l : list A) :
  slice 0 (Z.of_nat k) l = take k l.
Proof.
  unfold slice. rewrite slice_bound_nat. change 0%Z with (Z.of_nat 0).
  rewrite slice_bound_nat. simpl. rewrite Nat.sub_0_r, drop_0.
  destruct (decide (k ≤ length l)).
  - by replace (k `min` length l) with k by lia.
  - replace (k `min` length l) with (length l) by lia.
    rewrite (take_ge l (length l)) by lia. by rewrite (take_ge l k) by lia.
Qed.

Lemma slice_from_nat {A} (k : nat) (l : list A) :
  slice_from (Z.of_nat k) l = drop k l.
Proof.
  unfold slice_from. rewrite slice_bound_nat.
  destruct (decide (k ≤ length l)).
  - by replace (k `min` length l) with k by lia.
  - replace (k `min` length l) with (length l) by lia.
    rewrite (drop_ge l (length l)) by lia. by rewrite (drop_ge l k) by lia.
Qed.

Lemma slice_from_last {A} (t : nat) (l : list A) :
  t ≤ length l → 0 < t → slice_from (- Z.of_nat t) l = drop (length l - t) l.
Proof.
  intros Ht Hpos. unfold slice_from, slice_bound.
  destruct (Z.ltb_spec (- Z.of_nat t) 0); [| lia].
  f_equal. lia.
Qed.

Lemma windows_loop (t : nat) (data : list xfloat) (k : nat) :
  ∀ a acc, t ≤ a → a + k ≤ length data →
    for_each (window_step t data) acc (seq a k)
    = inr (acc.1 ++ (window_before t data <$> seq a k),
           acc.2 ++ take k (drop a data)).
Proof.
  induction k as [|k IH]; intros a [xs ys] Ha Hk.
  - simpl. by rewrite take_0, !app_nil_r.
  - destruct (lookup_lt_is_Some_2 data a ltac:(lia)) as [v Hv].
    cbn [seq for_each].
    assert (Hstep : window_step t data (xs, ys) a
                    = inr (xs ++ [window_before t data a], ys ++ [v])).
    { unfold window_step, item. rewrite Hv. cbn [mbind exn_bind mret exn_ret fst snd].
      by rewrite slice_window by lia. }
    rewrite Hstep. cbn [mbind exn_bind].
    rewrite IH by lia. cbn [fst snd]. rewrite (drop_S _ _ _ Hv).
    rewrite fmap_cons, <- !app_assoc. reflexivity.
Qed.

Lemma windows_eq (t : nat) (data : list xfloat) :
  windows t data
  = inr (window_before t data <$> range t (length data), drop t data).
Proof.
  unfold windows, range. destruct (decide (t ≤ length data)) as [Hle|Hgt].
  - rewrite windows_loop by lia. simpl. f_equal. f_equal.
    apply take_ge. rewrite length_drop. lia.
  - replace (length data - t) with 0 by lia. simpl.
    rewrite drop_ge by lia. reflexivity.
Qed.

Lemma foldl_snoc {A B} (f : B → A) (l : list B) (acc : list A) :
  foldl (λ x i, x ++ [f i]) acc l = acc ++ (f <$> l).
Proof.
  revert acc. induction l as [|b l IH]; intros acc; simpl.
  - by rewrite app_nil_r.
  - rewrite IH, <- app_assoc. reflexivity.
Qed.

Lemma input_windows_eq (t : nat) (data : list xfloat) :
  input_windows t data = window_before t data <$> range t (length data).
Proof.
  unfold input_windows. rewrite foldl_snoc. simpl.
  apply Forall_fmap_ext, Forall_forall. intros i Hi.
  unfold range in Hi. apply elem_of_seq in Hi.
  apply slice_window. lia.
Qed.

Lemma range_length (a b : nat) : length (range a b) = b - a.
Proof. unfold range. apply length_seq. Qed.

Lemma window_lookup (t : nat) (data : list xfloat) (j : nat) :
  j < length data - t →
  (window_before t data <$> range t (length data)) !! j
  = Some (take t (drop j data)).
Proof.
  intros Hj. rewrite list_lookup_fmap. unfold range.
  rewrite lookup_seq_lt by lia. simpl. unfold window_before.
  by replace (t + j - t) with j by lia.
Qed.

Lemma window_length (t : nat) (data : list xfloat) (j : nat) :
  j < length data - t → length (take t (drop j data)) = t.
Proof. intros Hj. rewrite length_take, length_drop. lia. Qed.

(** ** Successful runs of the forecasting pipeline *)

Ltac bind_inv H :=
  match type of H with
  | mbind _ ?m = inr _ =>
      let E := fresh "E" in
      destruct m eqn:E; [discriminate H | cbn [mbind exn_bind] in H]
  end.

Lemma reshape_windows_inr {A} (x x' : list (list A)) :
  reshape_windows x = inr x' → x' = x ∧ x ≠ [].
Proof. destruct x; [discriminate |]. intros [= <-]. done. Qed.

Lemma reshape_1_k_1_inr {A} (k : nat) (a a' : list A) :
  reshape_1_k_1 k a = inr a' → a' = a ∧ length a = k.
Proof.
  unfold reshape_1_k_1. case_bool_decide; [| discriminate]. intros [= <-]. done.
Qed.

Lemma timestamp_add_inr (ts delta t : Z) :
  timestamp_add ts delta = inr t →
  t = (ts + delta)%Z ∧ timestamp_in_bounds (ts + delta) = true.
Proof.
  unfold timestamp_add. destruct (timestamp_in_bounds (ts + delta)); [| discriminate].
  intros [= <-]. done.
Qed.

Lemma date_range_values (start periods : Z) (dates : list Z) :
  date_range start periods = inr dates →
  (0 <= periods)%Z
  ∧ dates = (λ k, (start + Z.of_nat k * day)%Z) <$> seq 0 (Z.to_nat periods).
Proof.
  unfold date_range. destruct (Z.ltb_spec periods 0); [discriminate |].
  destruct (_ && _); [discriminate |]. intros [= <-]. done.
Qed.

Lemma date_range_inr (start periods : Z) (dates : list Z) :
  date_range start periods = inr dates → length dates = Z.to_nat periods.
Proof.
  intros Hd. apply date_range_values in Hd as [_ ->].
  by rewrite length_fmap, length_seq.
Qed.

Section ForecastFacts.
Context `{FloatSqrt} `{Regressor}.

(** What a successful run says about each local variable. *)
Lemma lstm_run_inv (t : nat) (data : DataFrame) (days : Z) (r : LstmRun) :
  lstm_run t data days = inr r →
  df_get data "Close" = inr (close_prices r)
  ∧ scaler_fit_transform (close_prices r) = inr (scaler r, scaled_data r)
  ∧ training_data_len r = training_len (length (scaled_data r))
  ∧ train_data r = slice 0 (Z.of_nat (training_data_len r)) (scaled_data r)
  ∧ windows t (train_data r) = inr (x_train r, y_train r)
  ∧ x_train r ≠ []
  ∧ model r = keras_fit (x_train r) (y_train r)
  ∧ test_data r
    = slice_from (Z.of_nat (training_data_len r) - Z.of_nat t) (scaled_data r)
  ∧ y_test r = slice_from (Z.of_nat (training_data_len r)) (close_prices r)
  ∧ x_test r = input_windows t (test_data r)
  ∧ x_test r ≠ []
  ∧ scaler_inverse_transform (scaler r) (keras_predict (model r) <$> x_test r)
    = inr (predictions r)
  ∧ (∃ mse, mean_squared_error (y_test r) (predictions r) = inr mse
            ∧ rmse r = xsqrt mse)
  ∧ reshape_1_k_1 t (slice_from (- Z.of_nat t) (scaled_data r))
    = inr (last_sequence r)
  ∧ (∃ w preds,
        rollout (model r) t (last_sequence r) days = inr (w, preds)
        ∧ scaler_inverse_transform (scaler r) preds = inr (future_predictions r))
  ∧ item_last (index data) = inr (last_date r)
  ∧ date_range (last_date r + day) days = inr (future_dates r)
  ∧ frame_of (future_dates r) "Predicted_Close" (future_predictions r)
    = inr (future_df r).
Proof.
  unfold lstm_run. intros Hrun.
  bind_inv Hrun. bind_inv Hrun. destruct p as [sc scaled].
  bind_inv Hrun. destruct p as [xtr ytr].
  bind_inv Hrun. apply reshape_windows_inr in E2 as [-> Hxtr].
  bind_inv Hrun. apply reshape_windows_inr in E2 as [-> Hxte].
  bind_inv Hrun. bind_inv Hrun. bind_inv Hrun.
  bind_inv Hrun. destruct p as [w preds].
  bind_inv Hrun. bind_inv Hrun. bind_inv Hrun. bind_inv Hrun. bind_inv Hrun.
  injection Hrun as <-. cbn.
  match goal with
  | E : timestamp_add _ _ = inr _ |- _ => apply timestamp_add_inr in E as [-> _]
  end.
  repeat match goal with |- _ ∧ _ => split end; try done; eauto.
Qed.

End ForecastFacts.

Lemma check_array_inl (allow_nan : bool) (X : list xfloat) (e : exn) :
  check_array allow_nan X = inl e → e = ValueError.
Proof.
  unfold check_array, raise. repeat case_match; congruence.
Qed.

Lemma scaler_fit_transform_inr (X Y : list xfloat) (s : MinMaxScaler) :
  scaler_fit_transform X = inr (s, Y) →
  scaler_fit X = inr s ∧ Y = transform1 s <$> X ∧ X ≠ []
  ∧ existsb is_inf X = false.
Proof.
  intros Hft. destruct (scaler_fit X) as [e|s'] eqn:Hfit.
  - unfold scaler_fit_transform in Hft. rewrite Hfit in Hft. discriminate.
  - rewrite (scaler_fit_transform_eq X s' Hfit) in Hft. injection Hft as -> <-.
    apply scaler_fit_inr in Hfit as (Hchk & _).
    apply check_array_inr in Hchk as (_ & ? & ? & _). done.
Qed.

Lemma scaler_fit_transform_inl (X : list xfloat) (e : exn) :
  scaler_fit_transform X = inl e →
  e = ValueError ∧ (X = [] ∨ existsb is_inf X = true).
Proof.
  intros Hft. destruct (check_array true X) as [e'|Y] eqn:Hchk.
  - unfold scaler_fit_transform, scaler_fit in Hft. rewrite Hchk in Hft.
    injection Hft as <-. split; [by eapply check_array_inl |].
    unfold check_array in Hchk. case_bool_decide; [by left |].
    destruct (existsb is_inf X); [by right | discriminate].
  - apply check_array_inr in Hchk as Hchk'. destruct Hchk' as (-> & _).
    destruct (scaler_fit_checked X Hchk) as [s Hfit].
    rewrite (scaler_fit_transform_eq X s Hfit) in Hft. discriminate.
Qed.

Lemma scaler_inverse_transform_inr (s : MinMaxScaler) (X Y : list xfloat) :
  scaler_inverse_transform s X = inr Y → Y = inverse1 s <$> X ∧ X ≠ [].
Proof.
  unfold scaler_inverse_transform. intros HY. bind_inv HY.
  apply check_array_inr in E as (-> & ? & _). injection HY as <-. done.
Qed.

Lemma for_each_snoc {S A} (body : S → A → exn + S) (s : S) (l : list A) (a : A) :
  for_each body s (l ++ [a]) = (s' ← for_each body s l; body s' a).
Proof.
  revert s. induction l as [|b l IH]; intros s; simpl.
  - by destruct (body s a).
  - destruct (body s b); simpl; [done | apply IH].
Qed.

Section ForecastShape.
Context `{FloatSqrt} `{Regressor}.

(** In a successful run: the sizes of the slices and the closed form of the
    two lists of windows. *)
Lemma lstm_run_shape (t : nat) (data : DataFrame) (days : Z) (r : LstmRun) :
  lstm_run t data days = inr r →
  let n := length (close_prices r) in
  let tdl := training_data_len r in
  length (scaled_data r) = n
  ∧ tdl = training_len n ∧ 0 < t ∧ t < tdl ∧ tdl ≤ n
  ∧ train_data r = take tdl (scaled_data r)
  ∧ x_train r = window_before t (train_data r) <$> range t tdl
  ∧ y_train r = drop t (train_data r)
  ∧ test_data r = drop (tdl - t) (scaled_data r)
  ∧ x_test r = window_before t (test_data r) <$> range t (n - tdl + t)
  ∧ y_test r = drop tdl (close_prices r)
  ∧ predictions r = inverse1 (scaler r) <$> (keras_predict (model r) <$> x_test r)
  ∧ last_sequence r = drop (n - t) (scaled_data r).
Proof.
  intros Hrun n tdl.
  apply lstm_run_inv in Hrun
    as (_ & Hft & Htdl & Htrain & Hwin & Hxtr & _ & Htest & Hytest & Hxte
        & _ & Hpred & _ & Hlast & _).
  apply scaler_fit_transform_inr in Hft as (_ & Hscaled & Hne & _).
  assert (Hlen : length (scaled_data r) = n) by (by rewrite Hscaled, length_fmap).
  fold tdl in Htdl, Htrain, Htest, Hytest. rewrite Hlen in Htdl.
  assert (Hle : tdl ≤ n) by (rewrite Htdl; apply training_len_le).
  rewrite slice_prefix in Htrain.
  assert (Hltr : length (train_data r) = tdl).
  { rewrite Htrain, length_take. lia. }
  rewrite windows_eq in Hwin. injection Hwin as Hx Hy.
  rewrite Hltr in Hx.
  assert (Ht : t < tdl).
  { destruct (decide (t < tdl)); [done |]. exfalso. apply Hxtr. rewrite <- Hx.
    unfold range. by replace (tdl - t) with 0 by lia. }
  replace (Z.of_nat tdl - Z.of_nat t)%Z with (Z.of_nat (tdl - t)) in Htest by lia.
  rewrite slice_from_nat in Htest. rewrite slice_from_nat in Hytest.
  assert (Hlte : length (test_data r) = n - tdl + t).
  { rewrite Htest, length_drop. lia. }
  rewrite input_windows_eq, Hlte in Hxte.
  apply scaler_inverse_transform_inr in Hpred as (Hpred & _).
  apply reshape_1_k_1_inr in Hlast as (Hlast & Hlastlen).
  assert (Hpos : 0 < t).
  { destruct t as [|t']; [| lia]. exfalso.
    change (- Z.of_nat 0)%Z with (Z.of_nat 0) in Hlastlen.
    rewrite slice_from_nat, drop_0 in Hlastlen. lia. }
  rewrite slice_from_last in Hlast by lia. rewrite Hlen in Hlast.
  repeat match goal with |- _ ∧ _ => split end; done.
Qed.

End ForecastShape.

Section Windowing.
Context `{FloatSqrt} `{Regressor}.

Lemma train_window_lookup (t tdl j : nat) (scaled : list xfloat) :
  t < tdl → tdl ≤ length scaled → j < tdl - t →
  (window_before t (take tdl scaled) <$> range t tdl) !! j
  = Some (take t (drop j scaled))
  ∧ drop t (take tdl scaled) !! j = scaled !! (t + j).
Proof.
  intros Ht Htdl Hj. split.
  - replace (range t tdl) with (range t (length (take tdl scaled)))
      by (rewrite length_take; f_equal; lia).
    rewrite window_lookup by (rewrite length_take; lia).
    f_equal. rewrite !take_drop_commute, take_take. do 2 f_equal. lia.
  - rewrite lookup_drop, lookup_take_lt by lia. done.
Qed.

Lemma test_window_lookup (t tdl j : nat) (scaled : list xfloat) :
  t < tdl → tdl ≤ length scaled → j < length scaled - tdl →
  (window_before t (drop (tdl - t) scaled) <$> range t (length scaled - tdl + t)) !! j
  = Some (take t (drop (tdl - t + j) scaled)).
Proof.
  intros Ht Htdl Hj.
  replace (length scaled - tdl + t) with (length (drop (tdl - t) scaled))
    by (rewrite length_drop; lia).
  rewrite window_lookup by (rewrite length_drop; lia).
  by rewrite drop_drop.
Qed.

(** C2, as amended: in every successful run on a series of [n] closes with
    [t] look-back steps, the split point is [ceil(0.8 n)], which is
    [(4 n + 4) / 5]; there are [split - t] train windows and [n - split] test
    windows, [n - t] in all; train window [j] holds the scaled values at
    positions [j .. j+t-1] and its target is position [t + j]; test window [j]
    holds positions [split-t+j .. split+j-1] and its target is the close at
    position [split + j]; every test window starts after every train window
    and every test target lies after every train target. *)
Theorem windows_split_at_ceiling (t : nat) (data : DataFrame) (days : Z) (r : LstmRun) :
  lstm_run t data days = inr r →
  let n := length (close_prices r) in
  let split := training_data_len r in
  split = (4 * n + 4) `div` 5
  ∧ length (x_train r) = split - t ∧ length (y_train r) = split - t
  ∧ length (x_test r) = n - split ∧ length (y_test r) = n - split
  ∧ length (x_train r) + length (x_test r) = n - t
  ∧ (∀ j, j < split - t →
       x_train r !! j = Some (take t (drop j (scaled_data r)))
       ∧ y_train r !! j = scaled_data r !! (t + j))
  ∧ (∀ j, j < n - split →
       x_test r !! j = Some (take t (drop (split - t + j) (scaled_data r)))
       ∧ y_test r !! j = close_prices r !! (split + j))
  ∧ (∀ j j', j < split - t → j' < n - split →
       j < split - t + j' ∧ t + j < split + j').
Proof.
  intros Hrun n split.
  apply lstm_run_shape in Hrun
    as (Hlen & Htdl & Hpos & Ht & Hle & Htrain & Hx & Hy & Htest & Hxt & Hyt & _).
  fold n in Hlen, Htdl, Hle, Hxt. fold split in Htdl, Ht, Hle, Htrain, Hx, Htest, Hxt, Hyt.
  rewrite Htrain in Hx, Hy. rewrite Htest in Hxt.
  assert (Hlx : length (x_train r) = split - t)
    by (by rewrite Hx, length_fmap, range_length).
  assert (Hlxt : length (x_test r) = n - split)
    by (rewrite Hxt, length_fmap, range_length; lia).
  repeat match goal with |- _ ∧ _ => split end.
  - by rewrite Htdl, training_len_eq.
  - done.
  - rewrite Hy, length_drop, length_take. lia.
  - done.
  - rewrite Hyt, length_drop. done.
  - lia.
  - intros j Hj. rewrite Hx, Hy. apply train_window_lookup; lia.
  - intros j Hj. split.
    + rewrite Hxt, <- Hlen. apply test_window_lookup; lia.
    + by rewrite Hyt, lookup_drop.
  - lia.
Qed.

(** C10: in every successful run the test inputs are carved from the scaled
    series from position [training_data_len - t] on.  There are
    [n - training_data_len] test windows, as many targets and as many
    historical predictions; test window [j] starts at position
    [training_data_len - t + j]; the test targets are the closes from position
    [training_data_len] on; and each of the first [t] test windows holds, at
    its places [k < t - j], the value of the training portion at position
    [training_data_len - t + j + k]. *)
Theorem test_windows_overlap_train (t : nat) (data : DataFrame) (days : Z) (r : LstmRun) :
  lstm_run t data days = inr r →
  let n := length (close_prices r) in
  let tdl := training_data_len r in
  t < tdl
  ∧ test_data r = drop (tdl - t) (scaled_data r)
  ∧ length (x_test r) = n - tdl
  ∧ length (predictions r) = n - tdl
  ∧ y_test r = drop tdl (close_prices r)
  ∧ (∀ j w, x_test r !! j = Some w →
       w = take t (drop (tdl - t + j) (scaled_data r)) ∧ length w = t)
  ∧ (∀ j w k, x_test r !! j = Some w → j < t → k < t - j →
       tdl - t + j + k < length (train_data r)
       ∧ w !! k = train_data r !! (tdl - t + j + k)
       ∧ is_Some (w !! k)).
Proof.
  intros Hrun n tdl.
  apply lstm_run_shape in Hrun
    as (Hlen & Htdl & Hpos & Ht & Hle & Htrain & _ & _ & Htest & Hxt & Hyt & Hp & _).
  fold n in Hlen, Htdl, Hle, Hxt. fold tdl in Htdl, Ht, Hle, Htrain, Htest, Hxt, Hyt.
  rewrite Htest in Hxt.
  assert (Hlxt : length (x_test r) = n - tdl)
    by (rewrite Hxt, length_fmap, range_length; lia).
  assert (Hw : ∀ j w, x_test r !! j = Some w →
            w = take t (drop (tdl - t + j) (scaled_data r))).
  { intros j w Hjw. pose proof (lookup_lt_Some _ _ _ Hjw) as Hj.
    rewrite Hxt, <- Hlen, test_window_lookup in Hjw by lia. congruence. }
  repeat match goal with |- _ ∧ _ => split end; try done.
  - by rewrite Hp, !length_fmap.
  - intros j w Hjw. pose proof (lookup_lt_Some _ _ _ Hjw) as Hj.
    split; [by apply Hw |]. rewrite (Hw _ _ Hjw).
    rewrite length_take, length_drop. lia.
  - intros j w k Hjw Hj Hk. pose proof (lookup_lt_Some _ _ _ Hjw) as Hj'.
    rewrite (Hw _ _ Hjw).
    assert (Hlt : length (train_data r) = tdl) by (rewrite Htrain, length_take; lia).
    rewrite lookup_take_lt, lookup_drop by lia.
    split; [lia |]. rewrite Htrain, lookup_take_lt by lia.
    split; [done |]. apply lookup_lt_is_Some_2. lia.
Qed.

(** Without a training window the run stops at the reshape of the training
    array, unless the scaler has already refused the series. *)
Lemma run_without_train_windows (t : nat) (data : DataFrame) (days : Z)
    (close : list xfloat) :
  df_get data "Close" = inr close →
  training_len (length close) ≤ t →
  (close = [] ∨ existsb is_inf close = true) ∧ lstm_run t data days = inl ValueError
  ∨ (close ≠ [] ∧ existsb is_inf close = false)
    ∧ lstm_run t data days = inl IndexError.
Proof.
  intros Hclose Hn. unfold lstm_run. rewrite Hclose. cbn [mbind exn_bind].
  destruct (scaler_fit_transform close) as [e|[s scaled]] eqn:Hft.
  - apply scaler_fit_transform_inl in Hft as [-> Hwhy]. by left.
  - apply scaler_fit_transform_inr in Hft as (_ & -> & Hne & Hinf).
    right. split; [done |]. cbn [mbind exn_bind].
    rewrite windows_eq. cbn [mbind exn_bind].
    rewrite slice_prefix, length_take, length_fmap.
    unfold range.
    replace (training_len (length close) `min` length close - t) with 0 by lia.
    reflexivity.
Qed.

(** C3, as amended: a series with fewer than [t + 1] closes makes the run
    fail before the model is built, with [ValueError] from the scaler when the
    series is empty or holds an infinity and with [IndexError] from reshaping
    the empty array of training windows otherwise. *)
Theorem short_series_fails (t : nat) (data : DataFrame) (days : Z) (close : list xfloat) :
  df_get data "Close" = inr close →
  length close < t + 1 →
  (close = [] ∨ existsb is_inf close = true) ∧ lstm_run t data days = inl ValueError
  ∨ (close ≠ [] ∧ existsb is_inf close = false)
    ∧ lstm_run t data days = inl IndexError.
Proof.
  intros Hclose Hn. apply run_without_train_windows; [done |].
  pose proof (training_len_le (length close)). lia.
Qed.

End Windowing.

(** ** The future rollout *)

Lemma day_pos : (0 < day)%Z.
Proof. reflexivity. Qed.

Section Rollout.
Context `{FloatSqrt} `{Regressor}.

Lemma rollout_step_slides (m : Model) (t : nat) (w preds : list xfloat) (i : nat) :
  0 < t → length w = t →
  rollout_step m t (w, preds) i
  = inr (drop 1 w ++ [keras_predict m w], preds ++ [keras_predict m w]).
Proof.
  intros Ht Hw. unfold rollout_step, reshape_1_k_1.
  rewrite bool_decide_eq_true_2; [reflexivity |].
  rewrite length_app, length_drop. simpl. lia.
Qed.

Lemma rollout_succ (m : Model) (t : nat) (w0 : list xfloat) (i : nat) :
  rollout m t w0 (Z.of_nat (S i))
  = (st ← rollout m t w0 (Z.of_nat i); rollout_step m t st i).
Proof.
  unfold rollout, range. rewrite !Nat2Z.id, !Nat.sub_0_r.
  rewrite seq_S. apply for_each_snoc.
Qed.

(** After any number of iterations the window has its fixed length and one
    prediction per iteration has been collected. *)
Lemma rollout_invariant (m : Model) (t : nat) (w0 : list xfloat) (i : nat) :
  0 < t → length w0 = t →
  ∃ w preds, rollout m t w0 (Z.of_nat i) = inr (w, preds)
    ∧ length w = t ∧ length preds = i.
Proof.
  intros Ht Hw0. induction i as [|i (w & preds & Hi & Hw & Hp)].
  - exists w0, []. done.
  - rewrite rollout_succ, Hi. cbn [mbind exn_bind].
    rewrite rollout_step_slides by done. eexists _, _. split; [done |].
    rewrite !length_app, length_drop. simpl. lia.
Qed.

Lemma rollout_to_nat (m : Model) (t : nat) (w0 : list xfloat) (days : Z) :
  rollout m t w0 days = rollout m t w0 (Z.of_nat (Z.to_nat days)).
Proof. unfold rollout. by rewrite Nat2Z.id. Qed.

End Rollout.

Section RolloutClaims.
Context `{FloatSqrt} `{Regressor}.

(** C7: in every successful run the rollout starts from the last [t] scaled
    values, and at each of its iterations [i] the current window [w] has
    length [t]; the iteration predicts on [w], appends the prediction, still
    scaled, to the collected predictions, and its next window is [w] without
    its oldest value followed by the prediction: of length [t], ending in the
    prediction, and holding at place [k] what [w] held at place [k + 1]. *)
Theorem rollout_window_slides (t : nat) (data : DataFrame) (days : Z) (r : LstmRun) :
  lstm_run t data days = inr r →
  last_sequence r = drop (length (scaled_data r) - t) (scaled_data r)
  ∧ length (last_sequence r) = t
  ∧ ∀ i, i < Z.to_nat days →
      ∃ w preds,
        rollout (model r) t (last_sequence r) (Z.of_nat i) = inr (w, preds)
        ∧ length w = t ∧ length preds = i
        ∧ let pred := keras_predict (model r) w in
          let w' := drop 1 w ++ [pred] in
          rollout (model r) t (last_sequence r) (Z.of_nat (S i))
          = inr (w', preds ++ [pred])
          ∧ length w' = t
          ∧ last w' = Some pred
          ∧ ∀ k, k + 1 < t → w' !! k = w !! (k + 1).
Proof.
  intros Hrun.
  apply lstm_run_shape in Hrun as Hshape.
  destruct Hshape as (Hlen & _ & Hpos & Ht & Hle & _ & _ & _ & _ & _ & _ & _ & Hlast).
  assert (Hll : length (last_sequence r) = t).
  { rewrite Hlast, length_drop. lia. }
  split; [by rewrite Hlen |]. split; [done |].
  intros i _.
  destruct (rollout_invariant (model r) t (last_sequence r) i Hpos Hll)
    as (w & preds & Hi & Hw & Hp).
  exists w, preds. repeat split; try done.
  - rewrite rollout_succ, Hi. cbn [mbind exn_bind].
    by apply rollout_step_slides.
  - rewrite length_app, length_drop. simpl. lia.
  - apply last_snoc.
  - intros k Hk. rewrite lookup_app_l by (rewrite length_drop; lia).
    rewrite lookup_drop. f_equal. lia.
Qed.

(** C6: when [train_predict_lstm] returns, the horizon is positive and the
    returned future frame has exactly [prediction_days] rows: as many
    timestamps and as many predicted closes; the timestamps increase strictly
    and all lie after the last timestamp of the symbol's series.  The frame is
    also the one stored under the symbol. *)
Theorem future_has_horizon_entries (self self' : StockAnalysisSystem) (symbol : string)
    (prediction_days : Z) (data : DataFrame) (m : Model) (hist : list xfloat)
    (future_df : DataFrame) (e : xfloat) :
  stock_data self !! symbol = Some data →
  train_predict_lstm self symbol prediction_days
  = inr (self', (m, hist, future_df, e)) →
  (0 < prediction_days)%Z
  ∧ length (index future_df) = Z.to_nat prediction_days
  ∧ (∃ vals, columns future_df !! "Predicted_Close" = Some vals
             ∧ length vals = Z.to_nat prediction_days)
  ∧ (∀ i j a b, i < j → index future_df !! i = Some a →
       index future_df !! j = Some b → (a < b)%Z)
  ∧ (∃ last_date, last (index data) = Some last_date
       ∧ ∀ a, a ∈ index future_df → (last_date < a)%Z)
  ∧ (∃ p, symbol_predictions self' !! symbol = Some p ∧ future p = future_df).
Proof.
  intros Hdata Hcall. unfold train_predict_lstm in Hcall. rewrite Hdata in Hcall.
  cbn [mbind exn_bind] in Hcall. bind_inv Hcall. rename l into r.
  injection Hcall as <- <- <- <- <-.
  apply lstm_run_shape in E as Hshape.
  destruct Hshape as (Hlen & _ & Hpos & Ht & Hle & _ & _ & _ & _ & _ & _ & _ & Hlast).
  apply lstm_run_inv in E
    as (_ & _ & _ & _ & _ & _ & _ & _ & _ & _ & _ & _ & _ & _
        & (w & preds & Hroll & Hinv) & Hld & Hdates & Hframe).
  assert (Hll : length (last_sequence r) = 60).
  { rewrite Hlast, length_drop. lia. }
  destruct (rollout_invariant (model r) 60 (last_sequence r)
              (Z.to_nat prediction_days) Hpos Hll) as (w' & preds' & Hi & _ & Hp).
  rewrite <- rollout_to_nat, Hroll in Hi. injection Hi as <- <-.
  apply scaler_inverse_transform_inr in Hinv as (Hfut & Hne).
  assert (Hdays : (0 < prediction_days)%Z).
  { destruct preds; [done |]. simpl in Hp. lia. }
  apply date_range_values in Hdates as [_ Hdates]. symmetry in Hdates.
  unfold frame_of in Hframe. case_bool_decide; [| discriminate].
  injection Hframe as Hframe.
  unfold item_last in Hld. destruct (last (index data)) as [ld|] eqn:Hlastd;
    [| discriminate]. injection Hld as Hld.
  rewrite <- Hframe. cbn [index columns]. rewrite <- Hdates.
  repeat match goal with |- _ ∧ _ => split end.
  - done.
  - by rewrite length_fmap, length_seq.
  - exists (future_predictions r). rewrite lookup_singleton_eq. split; [done |].
    by rewrite Hfut, length_fmap.
  - intros i j a b Hij Ha Hb.
    rewrite list_lookup_fmap in Ha, Hb.
    destruct (seq 0 (Z.to_nat prediction_days) !! i) as [i'|] eqn:Hi'; [| done].
    destruct (seq 0 (Z.to_nat prediction_days) !! j) as [j'|] eqn:Hj'; [| done].
    apply lookup_seq in Hi' as [-> _]. apply lookup_seq in Hj' as [-> _].
    simpl in Ha, Hb. injection Ha as <-. injection Hb as <-.
    pose proof day_pos. nia.
  - exists ld. split; [done |]. intros a Ha.
    apply list_elem_of_fmap in Ha as (k & -> & _).
    rewrite <- Hld. pose proof day_pos. nia.
  - eexists. cbn [symbol_predictions]. rewrite lookup_insert_eq.
    split; reflexivity.
Qed.

End RolloutClaims.

(** ** The claims on concrete series *)

(** C2 as stated fails: on 101 closes with 60 look-back steps the split point
    is 81, not [floor(101 × 0.8) = 80], and there are 21 train windows, not
    [floor((101 - 60) × 0.8) = 32]. *)
Lemma split_is_not_floor :
  ∃ r, @lstm_run approx_sqrt persistence 60 (daily_frame ramp 101) 30 = inr r
    ∧ length (close_prices r) = 101
    ∧ training_data_len r = 81
    ∧ training_data_len r ≠ Z.to_nat (Qfloor (Q_of_nat 101 * (8 # 10)))
    ∧ length (x_train r) = 21
    ∧ length (x_train r) ≠ Z.to_nat (Qfloor (Q_of_nat (101 - 60) * (8 # 10))).
Proof.
  eexists. split; [vm_compute; reflexivity |].
  repeat split; try (vm_compute; reflexivity); vm_compute; discriminate.
Qed.

Lemma windows_split_at_ceiling_witness :
  ∃ r, @lstm_run approx_sqrt persistence 3 (daily_frame ramp 10) 2 = inr r
    ∧ let n := length (close_prices r) in
      let split := training_data_len r in
      split = (4 * n + 4) `div` 5
      ∧ length (x_train r) = split - 3 ∧ length (y_train r) = split - 3
      ∧ length (x_test r) = n - split ∧ length (y_test r) = n - split
      ∧ length (x_train r) + length (x_test r) = n - 3
      ∧ (∀ j, j < split - 3 →
           x_train r !! j = Some (take 3 (drop j (scaled_data r)))
           ∧ y_train r !! j = scaled_data r !! (3 + j))
      ∧ (∀ j, j < n - split →
           x_test r !! j = Some (take 3 (drop (split - 3 + j) (scaled_data r)))
           ∧ y_test r !! j = close_prices r !! (split + j))
      ∧ (∀ j j', j < split - 3 → j' < n - split →
           j < split - 3 + j' ∧ 3 + j < split + j').
Proof.
  eexists. split; [vm_compute; reflexivity |].
  apply (@windows_split_at_ceiling approx_sqrt persistence 3 (daily_frame ramp 10) 2).
  vm_compute. reflexivity.
Defined.

Lemma test_windows_overlap_train_witness :
  ∃ r, @lstm_run approx_sqrt persistence 3 (daily_frame ramp 10) 2 = inr r
    ∧ let n := length (close_prices r) in
      let tdl := training_data_len r in
      3 < tdl
      ∧ test_data r = drop (tdl - 3) (scaled_data r)
      ∧ length (x_test r) = n - tdl
      ∧ length (predictions r) = n - tdl
      ∧ y_test r = drop tdl (close_prices r)
      ∧ (∀ j w, x_test r !! j = Some w →
           w = take 3 (drop (tdl - 3 + j) (scaled_data r)) ∧ length w = 3)
      ∧ (∀ j w k, x_test r !! j = Some w → j < 3 → k < 3 - j →
           tdl - 3 + j + k < length (train_data r)
           ∧ w !! k = train_data r !! (tdl - 3 + j + k)
           ∧ is_Some (w !! k)).
Proof.
  eexists. split; [vm_compute; reflexivity |].
  apply (@test_windows_overlap_train approx_sqrt persistence 3 (daily_frame ramp 10) 2).
  vm_compute. reflexivity.
Defined.

(** C3 as stated fails: 50 closes with 60 look-back steps raise
    [IndexError]; nothing named [InsufficientDataError] is raised. *)
Lemma short_series_raises_index_error :
  @lstm_run approx_sqrt persistence 60 (daily_frame ramp 50) 30 = inl IndexError
  ∧ ¬ ∃ e, @lstm_run approx_sqrt persistence 60 (daily_frame ramp 50) 30 = inl e
           ∧ exn_name e = "InsufficientDataError".
Proof.
  split; [vm_compute; reflexivity |].
  intros (e & He & Hname). vm_compute in He. injection He as <-. discriminate.
Qed.

Lemma short_series_fails_witness :
  (((λ k, Fin (ramp k)) <$> seq 0 50 = [])
   ∨ existsb is_inf ((λ k, Fin (ramp k)) <$> seq 0 50) = true)
  ∧ @lstm_run approx_sqrt persistence 60 (daily_frame ramp 50) 30 = inl ValueError
  ∨ (((λ k, Fin (ramp k)) <$> seq 0 50) ≠ []
     ∧ existsb is_inf ((λ k, Fin (ramp k)) <$> seq 0 50) = false)
    ∧ @lstm_run approx_sqrt persistence 60 (daily_frame ramp 50) 30 = inl IndexError.
Proof.
  apply (@short_series_fails approx_sqrt persistence 60 (daily_frame ramp 50) 30).
  - vm_compute. reflexivity.
  - vm_compute. lia.
Defined.

Lemma rollout_window_slides_witness :
  ∃ r, @lstm_run approx_sqrt persistence 3 (daily_frame ramp 10) 2 = inr r
    ∧ last_sequence r = drop (length (scaled_data r) - 3) (scaled_data r)
    ∧ length (last_sequence r) = 3
    ∧ ∀ i, i < Z.to_nat 2 →
        ∃ w preds,
          @rollout persistence (model r) 3 (last_sequence r) (Z.of_nat i)
          = inr (w, preds)
          ∧ length w = 3 ∧ length preds = i
          ∧ let pred := @keras_predict persistence (model r) w in
            let w' := drop 1 w ++ [pred] in
            @rollout persistence (model r) 3 (last_sequence r) (Z.of_nat (S i))
            = inr (w', preds ++ [pred])
            ∧ length w' = 3
            ∧ last w' = Some pred
            ∧ ∀ k, k + 1 < 3 → w' !! k = w !! (k + 1).
Proof.
  eexists. split; [vm_compute; reflexivity |].
  apply (@rollout_window_slides approx_sqrt persistence 3 (daily_frame ramp 10) 2).
  vm_compute. reflexivity.
Defined.

Lemma future_has_horizon_entries_witness :
  ∃ self' m hist future_df e,
    @train_predict_lstm approx_sqrt persistence sample_system "AAPL" 30
    = inr (self', (m, hist, future_df, e))
    ∧ (0 < 30)%Z
    ∧ length (index future_df) = Z.to_nat 30
    ∧ (∃ vals, columns future_df !! "Predicted_Close" = Some vals
               ∧ length vals = Z.to_nat 30)
    ∧ (∀ i j a b, i < j → index future_df !! i = Some a →
         index future_df !! j = Some b → (a < b)%Z)
    ∧ (∃ last_date, last (index (daily_frame ramp 100)) = Some last_date
         ∧ ∀ a, a ∈ index future_df → (last_date < a)%Z)
    ∧ (∃ p, symbol_predictions self' !! "AAPL" = Some p ∧ future p = future_df).
Proof.
  eexists _, _, _, _, _. split; [vm_compute; reflexivity |].
  eapply (@future_has_horizon_entries approx_sqrt persistence sample_system _
            "AAPL" 30 (daily_frame ramp 100)).
  - vm_compute. reflexivity.
  - vm_compute. reflexivity.
Defined.

(** ** The indicator frame *)

Lemma df_get_set_eq (df : DataFrame) (c : string) (v : list xfloat) :
  df_get (df_set df c v) c = inr v.
Proof. unfold df_get, df_set. cbn [columns]. by rewrite lookup_insert_eq. Qed.

Lemma df_get_set_ne (df : DataFrame) (c c' : string) (v : list xfloat) :
  c ≠ c' → df_get (df_set df c v) c' = df_get df c'.
Proof.
  intros Hne. unfold df_get, df_set. cbn [columns].
  by rewrite lookup_insert_ne.
Qed.

Section IndicatorFrame.
Context `{FloatSqrt}.

Ltac get_column Hclose :=
  first [ rewrite df_get_set_eq
        | rewrite df_get_set_ne by done
        | rewrite Hclose ];
  cbn [mbind exn_bind].

(** With a [Close] column the computation returns, and every derived column
    is the stated transform of the closes. *)
Lemma indicators_of_inr (data : DataFrame) (close : list xfloat) :
  df_get data "Close" = inr close →
  ∃ df, indicators_of data = inr df
    ∧ index df = index data
    ∧ df_get df "Close" = inr close
    ∧ df_get df "SMA_20" = inr (rolling 20 mean close)
    ∧ df_get df "SMA_50" = inr (rolling 50 mean close)
    ∧ df_get df "SMA_200" = inr (rolling 200 mean close)
    ∧ df_get df "EMA_12" = inr (ewm_mean 12 close)
    ∧ df_get df "EMA_26" = inr (ewm_mean 26 close)
    ∧ df_get df "MACD" = inr (macd_of close)
    ∧ df_get df "MACD_Signal" = inr (ewm_mean 9 (macd_of close))
    ∧ df_get df "MACD_Hist"
      = inr (s_sub (macd_of close) (ewm_mean 9 (macd_of close)))
    ∧ df_get df "RSI" = inr (rsi_of close)
    ∧ df_get df "BB_Middle" = inr (rolling 20 mean close)
    ∧ df_get df "BB_Std" = inr (rolling 20 std close)
    ∧ df_get df "BB_Upper" = inr (bb_upper_of close)
    ∧ df_get df "BB_Lower" = inr (bb_lower_of close)
    ∧ df_get df "BB_Width"
      = inr (s_div (s_sub (bb_upper_of close) (bb_lower_of close))
                   (rolling 20 mean close))
    ∧ df_get df "Momentum" = inr (s_div close (shift 10 close)).
Proof.
  intros Hclose. unfold indicators_of. cbv zeta.
  repeat get_column Hclose.
  eexists. split; [reflexivity |].
  split; [reflexivity |].
  repeat split; repeat get_column Hclose; reflexivity.
Qed.

End IndicatorFrame.

(** ** Exponential moving averages *)

Lemma ewm_loop_recurrence (alpha : Q) (rest : list Q) :
  ∀ e0 : Q,
    let out := ewm_loop alpha (Fin e0) 1 (Fin <$> rest) in
    length out = length rest
    ∧ ∀ i p, rest !! i = Some p →
        ∃ e, out !! i = Some (Fin e)
          ∧ match i with
            | 0 => (e == p * alpha + e0 * (1 - alpha))%Q
            | S i' => ∃ e', out !! i' = Some (Fin e')
                            ∧ (e == p * alpha + e' * (1 - alpha))%Q
            end.
Proof.
  induction rest as [|p0 rest IH]; intros e0 out.
  - split; [done |]. intros i p Hi. done.
  - subst out. cbn [fmap list_fmap ewm_loop is_nan].
    assert (Hden : ¬ (1 * (1 - alpha) + alpha == 0)%Q) by (intros E; lra).
    cbn [xmul xadd]. rewrite xdiv_fin by exact Hden.
    set (e1 := ((1 * (1 - alpha) * e0 + alpha * p0) / (1 * (1 - alpha) + alpha))%Q).
    assert (He1 : (e1 == p0 * alpha + e0 * (1 - alpha))%Q).
    { unfold e1. field. intros E. apply Hden. lra. }
    destruct (IH e1) as [Hlen Hrec]. split.
    + simpl. by rewrite Hlen.
    + intros [|i] p Hi.
      * injection Hi as <-. exists e1. done.
      * simpl in Hi. destruct (Hrec i p Hi) as (e & He & Hstep).
        exists e. split; [exact He |].
        destruct i as [|i'].
        -- exists e1. done.
        -- exact Hstep.
Qed.

Lemma ewm_mean_is_ema (span : nat) (price : list Q) :
  is_ema (ewm_alpha span) price (ewm_mean span (Fin <$> price)).
Proof.
  unfold is_ema. destruct price as [|p0 rest]; [done |].
  cbn [fmap list_fmap ewm_mean].
  destruct (ewm_loop_recurrence (ewm_alpha span) rest p0) as [Hlen Hrec].
  split; [simpl; by rewrite Hlen |].
  intros [|i] p Hi.
  - injection Hi as <-. exists p0. split; [done | reflexivity].
  - simpl in Hi. destruct (Hrec i p Hi) as (e & He & Hstep).
    exists e. split; [exact He |]. destruct i as [|i'].
    + exists p0. done.
    + exact Hstep.
Qed.

(** The recurrence keeps a constant series constant. *)
Lemma is_ema_constant (k v : Q) (price : list Q) (ema : list xfloat) :
  is_ema k price ema →
  (∀ p, p ∈ price → (p == v)%Q) →
  ∀ i, i < length price → ∃ e, ema !! i = Some (Fin e) ∧ (e == v)%Q.
Proof.
  intros [Hlen Hrec] Hconst i. induction i as [|i IH]; intros Hi.
  - destruct (lookup_lt_is_Some_2 price 0 Hi) as [p Hp].
    destruct (Hrec 0 p Hp) as (e & He & Heq).
    exists e. split; [done |]. rewrite Heq. apply Hconst.
    by eapply list_elem_of_lookup_2.
  - destruct (lookup_lt_is_Some_2 price (S i) Hi) as [p Hp].
    destruct (Hrec (S i) p Hp) as (e & He & e' & He' & Heq).
    destruct (IH ltac:(lia)) as (e'' & He'' & Hv).
    assert (e' = e'') as -> by congruence.
    exists e. split; [done |]. rewrite Heq, Hv.
    rewrite (Hconst p) by (by eapply list_elem_of_lookup_2). ring.
Qed.

Section EmaClaim.
Context `{FloatSqrt}.

(** C8: for every series of closes the indicator computation returns a frame
    whose columns [EMA_12] and [EMA_26] are as long as the series and satisfy,
    at every index, [ema[0] = price[0]] and
    [ema[i] = price[i] * k + ema[i-1] * (1 - k)] with [k = 2 / (span + 1)];
    on a series constantly [v] each of them is [v] at every index. *)
Theorem ema_recurrence (data : DataFrame) (price : list Q) :
  df_get data "Close" = inr (Fin <$> price) →
  ∃ df ema12 ema26,
    indicators_of data = inr df
    ∧ columns df !! "EMA_12" = Some ema12
    ∧ columns df !! "EMA_26" = Some ema26
    ∧ is_ema (2 / (12 + 1)) price ema12
    ∧ is_ema (2 / (26 + 1)) price ema26
    ∧ ∀ v, (∀ p, p ∈ price → (p == v)%Q) →
        ∀ i, i < length price →
          (∃ e, ema12 !! i = Some (Fin e) ∧ (e == v)%Q)
          ∧ (∃ e, ema26 !! i = Some (Fin e) ∧ (e == v)%Q).
Proof.
  intros Hclose.
  destruct (indicators_of_inr data _ Hclose)
    as (df & Hdf & _ & _ & _ & _ & _ & H12 & H26 & _).
  unfold df_get in H12, H26.
  destruct (columns df !! "EMA_12") as [ema12|] eqn:C12; [| discriminate].
  destruct (columns df !! "EMA_26") as [ema26|] eqn:C26; [| discriminate].
  injection H12 as ->. injection H26 as ->.
  pose proof (ewm_mean_is_ema 12 price) as E12.
  pose proof (ewm_mean_is_ema 26 price) as E26.
  eexists _, _, _. split; [exact Hdf |].
  split; [exact C12 |]. split; [exact C26 |].
  split; [exact E12 |]. split; [exact E26 |].
  intros v Hv i Hi. split; eapply is_ema_constant; eauto.
Qed.

End EmaClaim.

Lemma ema_recurrence_witness :
  ∃ df ema12 ema26,
    @indicators_of approx_sqrt (daily_frame (flat 7) 30) = inr df
    ∧ columns df !! "EMA_12" = Some ema12
    ∧ columns df !! "EMA_26" = Some ema26
    ∧ is_ema (2 / (12 + 1)) ((flat 7) <$> seq 0 30) ema12
    ∧ is_ema (2 / (26 + 1)) ((flat 7) <$> seq 0 30) ema26
    ∧ ∀ v, (∀ p, p ∈ (flat 7) <$> seq 0 30 → (p == v)%Q) →
        ∀ i, i < length ((flat 7) <$> seq 0 30) →
          (∃ e, ema12 !! i = Some (Fin e) ∧ (e == v)%Q)
          ∧ (∃ e, ema26 !! i = Some (Fin e) ∧ (e == v)%Q).
Proof.
  apply (@ema_recurrence approx_sqrt (daily_frame (flat 7) 30)).
  vm_compute. reflexivity.
Defined.

(** ** Rolling windows and sums *)

Lemma rolling_length (w : nat) (agg : list xfloat → xfloat) (s : list xfloat) :
  length (rolling w agg s) = length s.
Proof. unfold rolling. by rewrite length_fmap, length_seq. Qed.

Lemma rolling_lookup (w : nat) (agg : list xfloat → xfloat) (s : list xfloat) (i : nat) :
  i < length s →
  rolling w agg s !! i
  = Some (let win := take w (drop (i + 1 - w) s) in
          if bool_decide (w ≤ i + 1) && forallb is_finite win
          then agg win else NaN).
Proof.
  intros Hi. unfold rolling. rewrite list_lookup_fmap, lookup_seq_lt by done.
  reflexivity.
Qed.

(** Inside the warm-up gap a rolling aggregate is NaN. *)
Lemma rolling_warmup (w : nat) (agg : list xfloat → xfloat) (s : list xfloat) (i : nat) :
  i < length s → i + 1 < w → rolling w agg s !! i = Some NaN.
Proof.
  intros Hi Hw. rewrite rolling_lookup by done. cbv zeta.
  rewrite bool_decide_eq_false_2 by lia. reflexivity.
Qed.

Lemma forallb_finite_fin (qs : list Q) :
  forallb is_finite (Fin <$> qs) = true.
Proof. induction qs as [|q qs IH]; [done |]. simpl. exact IH. Qed.

Lemma xsum_fin_from (a : Q) (qs : list Q) :
  foldl xadd (Fin a) (Fin <$> qs) = Fin (foldl Qplus a qs).
Proof. revert a. induction qs as [|q qs IH]; intros a; [done |]. simpl. apply IH. Qed.

Lemma xsum_fin (qs : list Q) : xsum (Fin <$> qs) = Fin (Qsum qs).
Proof. apply xsum_fin_from. Qed.

Lemma Q_of_nat_pos (n : nat) : 0 < n → (0 < Q_of_nat n)%Q.
Proof.
  intros Hn. unfold Q_of_nat, Qlt. simpl. lia.
Qed.

Lemma mean_fin (qs : list Q) :
  qs ≠ [] → mean (Fin <$> qs) = Fin (Qsum qs / Q_of_nat (length qs)).
Proof.
  intros Hne. unfold mean. rewrite xsum_fin, length_fmap, xdiv_fin; [done |].
  pose proof (Q_of_nat_pos (length qs)) as Hpos.
  destruct qs; [done |]. specialize (Hpos ltac:(simpl; lia)). intros E. lra.
Qed.

(** On a finite series a rolling mean past the gap is the mean of the
    window. *)
Lemma rolling_mean_fin (w : nat) (qs : list Q) (i : nat) :
  0 < w → w ≤ i + 1 → i < length qs →
  rolling w mean (Fin <$> qs) !! i
  = Some (Fin (Qsum (take w (drop (i + 1 - w) qs)) / Q_of_nat w)).
Proof.
  intros Hw Hi Hlen. rewrite rolling_lookup by (by rewrite length_fmap).
  cbv zeta. rewrite bool_decide_eq_true_2 by done.
  rewrite <- fmap_drop, <- fmap_take, forallb_finite_fin. cbn [andb].
  assert (Hwin : length (take w (drop (i + 1 - w) qs)) = w).
  { rewrite length_take, length_drop. lia. }
  rewrite mean_fin, Hwin; [done |].
  intros E. rewrite E in Hwin. simpl in Hwin. lia.
Qed.

Lemma Qsum_from_ge (a : Q) (qs : list Q) :
  Forall (λ q, (0 <= q)%Q) qs → (a <= foldl Qplus a qs)%Q.
Proof.
  intros Hall. revert a. induction Hall as [|q qs Hq _ IH]; intros a; simpl.
  - lra.
  - specialize (IH (a + q)%Q). lra.
Qed.

Lemma Qsum_from_eq (a : Q) (qs : list Q) :
  Forall (λ q, (0 <= q)%Q) qs →
  (foldl Qplus a qs == a)%Q ↔ Forall (λ q, (q == 0)%Q) qs.
Proof.
  intros Hall. revert a. induction Hall as [|q qs Hq Hqs IH]; intros a; simpl.
  - split; [constructor | reflexivity].
  - pose proof (Qsum_from_ge (a + q) qs Hqs) as Hge. split.
    + intros Heq. assert (Hq0 : (q == 0)%Q) by lra.
      constructor; [exact Hq0 |]. apply (IH (a + q)%Q). lra.
    + intros Hz. apply Forall_cons in Hz as [Hq0 Hz].
      apply (IH (a + q)%Q) in Hz. lra.
Qed.

Lemma Qsum_nonneg (qs : list Q) : Forall (λ q, (0 <= q)%Q) qs → (0 <= Qsum qs)%Q.
Proof. apply Qsum_from_ge. Qed.

Lemma Qsum_zero (qs : list Q) :
  Forall (λ q, (0 <= q)%Q) qs → (Qsum qs == 0)%Q ↔ Forall (λ q, (q == 0)%Q) qs.
Proof. apply Qsum_from_eq. Qed.

(** ** The relative strength index *)

Lemma zip_with_xsub_fin (a b : list Q) :
  zip_with xsub (Fin <$> a) (Fin <$> b) = Fin <$> zip_with (λ q p, q + - p)%Q a b.
Proof.
  revert b. induction a as [|x a IH]; intros [|y b]; try done.
  simpl. by rewrite IH.
Qed.

Lemma diff_fin (price : list Q) :
  diff (Fin <$> price) = match price with
                         | [] => []
                         | _ :: _ => NaN :: (Fin <$> deltas_q price)
                         end.
Proof.
  destruct price as [|p tl]; [done |]. unfold diff, deltas_q.
  cbn [fmap list_fmap tail]. f_equal.
  change (Fin p :: list_fmap Q xfloat Fin tl) with (Fin <$> (p :: tl)).
  apply (zip_with_xsub_fin tl (p :: tl)).
Qed.

Lemma gains_fin (price : list Q) :
  where_ (λ d, xltb (Fin 0) d) (Fin 0) (diff (Fin <$> price))
  = Fin <$> gains_q price.
Proof.
  rewrite diff_fin. unfold gains_q, where_. destruct price as [|p tl]; [done |].
  rewrite !fmap_cons. f_equal. rewrite <- !list_fmap_compose.
  apply list_fmap_ext. intros _ d _. simpl. unfold gain_q.
  by destruct (Qlt_bool 0 d).
Qed.

Lemma losses_fin (price : list Q) :
  xopp <$> where_ (λ d, xltb d (Fin 0)) (Fin 0) (diff (Fin <$> price))
  = Fin <$> losses_q price.
Proof.
  rewrite diff_fin. unfold losses_q, where_. destruct price as [|p tl]; [done |].
  rewrite !fmap_cons. f_equal. rewrite <- !list_fmap_compose.
  apply list_fmap_ext. intros _ d _. simpl. unfold loss_q.
  by destruct (Qlt_bool d 0).
Qed.

Lemma deltas_q_length (price : list Q) : length (deltas_q price) = length price - 1.
Proof.
  unfold deltas_q. rewrite length_zip_with. destruct price; simpl; lia.
Qed.

Lemma deltas_q_lookup (price : list Q) (j : nat) (p q : Q) :
  price !! j = Some p → price !! S j = Some q →
  deltas_q price !! j = Some (q + - p)%Q.
Proof.
  intros Hp Hq. unfold deltas_q. rewrite lookup_zip_with.
  destruct price as [|p0 tl]; [done |]. cbn [tail].
  simpl in Hq. rewrite Hq. simpl. rewrite Hp. reflexivity.
Qed.

Lemma gains_q_length (price : list Q) : length (gains_q price) = length price.
Proof.
  unfold gains_q. destruct price as [|p tl]; [done |].
  cbn [length]. rewrite length_fmap, deltas_q_length. simpl. lia.
Qed.

Lemma losses_q_length (price : list Q) : length (losses_q price) = length price.
Proof.
  unfold losses_q. destruct price as [|p tl]; [done |].
  cbn [length]. rewrite length_fmap, deltas_q_length. simpl. lia.
Qed.

Lemma gain_q_nonneg (d : Q) : (0 <= gain_q d)%Q.
Proof.
  unfold gain_q. destruct (Qlt_bool 0 d) eqn:E; [| lra].
  apply Qlt_bool_iff in E. lra.
Qed.

Lemma loss_q_nonneg (d : Q) : (0 <= loss_q d)%Q.
Proof.
  unfold loss_q. destruct (Qlt_bool d 0) eqn:E; [| lra].
  apply Qlt_bool_iff in E. lra.
Qed.

Lemma gain_q_zero (d : Q) : (gain_q d == 0)%Q ↔ (d <= 0)%Q.
Proof.
  unfold gain_q. destruct (Qlt_bool 0 d) eqn:E.
  - apply Qlt_bool_iff in E. split; intros; lra.
  - apply Qlt_bool_false in E. split; intros; [lra | reflexivity].
Qed.

Lemma loss_q_zero (d : Q) : (loss_q d == 0)%Q ↔ (0 <= d)%Q.
Proof.
  unfold loss_q. destruct (Qlt_bool d 0) eqn:E.
  - apply Qlt_bool_iff in E. split; intros; lra.
  - apply Qlt_bool_false in E. split; intros; [lra | ring].
Qed.

Lemma gains_q_nonneg (price : list Q) : Forall (λ q, (0 <= q)%Q) (gains_q price).
Proof.
  unfold gains_q. destruct price as [|p tl]; [constructor |].
  constructor; [lra |]. apply Forall_fmap, Forall_forall.
  intros d _. apply gain_q_nonneg.
Qed.

Lemma losses_q_nonneg (price : list Q) : Forall (λ q, (0 <= q)%Q) (losses_q price).
Proof.
  unfold losses_q. destruct price as [|p tl]; [constructor |].
  constructor; [lra |]. apply Forall_fmap, Forall_forall.
  intros d _. apply loss_q_nonneg.
Qed.

(** The entries of a per-delta series [c0 :: (f <$> deltas)]: the first is
    [c0], entry [j + 1] is [f] of the change from close [j] to close
    [j + 1]. *)
Lemma delta_series_lookup (f : Q → Q) (c0 : Q) (price : list Q) (k : nat) (g : Q) :
  price ≠ [] →
  (c0 :: (f <$> deltas_q price)) !! k = Some g →
  (k = 0 ∧ g = c0)
  ∨ ∃ j p q, k = S j ∧ price !! j = Some p ∧ price !! S j = Some q
             ∧ g = f (q + - p)%Q.
Proof.
  intros Hne Hk. destruct k as [|j].
  { left. simpl in Hk. injection Hk as <-. done. }
  right.
  simpl in Hk. rewrite list_lookup_fmap in Hk.
  destruct (deltas_q price !! j) as [d|] eqn:Hd; [| done].
  injection Hk as <-.
  pose proof (lookup_lt_Some _ _ _ Hd) as Hj. rewrite deltas_q_length in Hj.
  destruct (lookup_lt_is_Some_2 price j ltac:(lia)) as [p Hp].
  destruct (lookup_lt_is_Some_2 price (S j) ltac:(lia)) as [q Hq].
  rewrite (deltas_q_lookup price j p q Hp Hq) in Hd. injection Hd as <-.
  eauto 10.
Qed.

(** The 14-delta window that ends at index [i] of a per-delta series vanishes
    exactly when [f] vanishes on every change of close inside it. *)
Lemma window_zero (f : Q → Q) (c0 : Q) (price : list Q) (i : nat) :
  (c0 == 0)%Q → 13 ≤ i → i < length price →
  Forall (λ q, (q == 0)%Q) (take 14 (drop (i + 1 - 14) (c0 :: (f <$> deltas_q price))))
  ↔ ∀ j p q, i ≤ j + 14 → j < i → price !! j = Some p → price !! S j = Some q →
      (f (q + - p) == 0)%Q.
Proof.
  intros Hc0 Hi Hlen.
  assert (Hne : price ≠ []) by (intros ->; simpl in Hlen; lia).
  rewrite Forall_lookup. split.
  - intros Hall j p q Hj1 Hj2 Hp Hq.
    apply (Hall (S j - (i + 1 - 14))).
    rewrite lookup_take_lt, lookup_drop by lia.
    replace (i + 1 - 14 + (S j - (i + 1 - 14))) with (S j) by lia.
    simpl. rewrite list_lookup_fmap, (deltas_q_lookup price j p q Hp Hq).
    reflexivity.
  - intros Hwin m g Hm.
    assert (Hm14 : m < 14).
    { apply lookup_lt_Some in Hm. rewrite length_take in Hm. lia. }
    rewrite lookup_take_lt, lookup_drop in Hm by lia.
    apply delta_series_lookup in Hm as [[_ ->]|(j & p & q & Hk & Hp & Hq & ->)];
      [exact Hc0 | | exact Hne].
    apply (Hwin j p q); [lia | lia | done | done].
Qed.

(** The oscillator value from the average gain [G] and the average loss
    [L]. *)
Lemma rsi_value (G L : Q) :
  (0 <= G)%Q → (0 <= L)%Q →
  let x := xsub (Fin 100) (xdiv (Fin 100) (xadd (Fin 1) (xdiv (Fin G) (Fin L)))) in
  ((L == 0)%Q → (G == 0)%Q → x = NaN)
  ∧ ((L == 0)%Q → (0 < G)%Q → ∃ v, x = Fin v ∧ (v == 100)%Q)
  ∧ ((0 < L)%Q → ∃ v, x = Fin v ∧ (0 <= v)%Q ∧ (v < 100)%Q
                    ∧ (v == 100 - 100 / (1 + G / L))%Q).
Proof.
  intros HG HL x. subst x. repeat split.
  - intros HL0 HG0. cbn [xdiv]. rewrite (Qeq_eq_bool _ _ HL0).
    apply Qeq_alt in HG0. rewrite HG0. reflexivity.
  - intros HL0 HG0. cbn [xdiv]. rewrite (Qeq_eq_bool _ _ HL0).
    apply Qgt_alt in HG0. rewrite HG0. simpl. eexists. split; [reflexivity |]. ring.
  - intros HL0. rewrite xdiv_fin by lra. cbn [xadd].
    assert (Hr : (0 <= G / L)%Q).
    { apply Qle_shift_div_l; [exact HL0 | lra]. }
    rewrite xdiv_fin by lra. cbn [xsub xopp xadd].
    eexists. split; [reflexivity |].
    assert (Hd : (0 < 100 / (1 + G / L) <= 100)%Q).
    { split.
      - apply Qlt_shift_div_l; lra.
      - apply Qle_shift_div_r; lra. }
    repeat split; lra.
Qed.

Lemma df_get_inr (df : DataFrame) (c : string) (v : list xfloat) :
  df_get df c = inr v ↔ columns df !! c = Some v.
Proof.
  unfold df_get. destruct (columns df !! c); split; intros E; try done.
  - by injection E as ->.
  - by injection E as ->.
Qed.

Lemma rsi_of_length (close : list xfloat) : length (rsi_of close) = length close.
Proof.
  unfold rsi_of, s_div, where_, diff. cbv zeta.
  rewrite length_fmap, length_zip_with, !rolling_length, !length_fmap.
  destruct close as [|c tl]; [done |]. cbn [length].
  rewrite length_zip_with. simpl. lia.
Qed.

(** The entry of the RSI column at index [i] of a series of finite closes. *)
Lemma rsi_of_lookup (price : list Q) (i : nat) :
  i < length price →
  rsi_of (Fin <$> price) !! i
  = Some (if decide (13 ≤ i)
          then
            let G := (Qsum (take 14 (drop (i + 1 - 14) (gains_q price)))
                      / Q_of_nat 14)%Q in
            let L := (Qsum (take 14 (drop (i + 1 - 14) (losses_q price)))
                      / Q_of_nat 14)%Q in
            xsub (Fin 100) (xdiv (Fin 100) (xadd (Fin 1) (xdiv (Fin G) (Fin L))))
          else NaN).
Proof.
  intros Hi. unfold rsi_of. cbv zeta. rewrite gains_fin, losses_fin.
  unfold s_div. rewrite list_lookup_fmap, lookup_zip_with.
  destruct (decide (13 ≤ i)) as [H13|H13].
  - rewrite !rolling_mean_fin
      by (rewrite ?gains_q_length, ?losses_q_length; lia).
    reflexivity.
  - rewrite !rolling_warmup
      by (rewrite ?length_fmap, ?gains_q_length, ?losses_q_length; lia).
    reflexivity.
Qed.

Section RsiClaim.
Context `{FloatSqrt}.

(** C4, as amended: for every series of finite closes the indicator
    computation returns a frame with an [RSI] column as long as the series.
    Below index 13 the value is NaN.  From index 13 on, with the 14 changes of
    close that end at the index: when no close falls and none rises (average
    gain and average loss both zero) the value is NaN; when no close falls and
    some close rises (average loss zero) the value is 100; when some close
    falls the value [v] satisfies [0 <= v <= 100]. *)
Theorem rsi_range (data : DataFrame) (price : list Q) :
  df_get data "Close" = inr (Fin <$> price) →
  ∃ df rsi,
    indicators_of data = inr df
    ∧ columns df !! "RSI" = Some rsi
    ∧ length rsi = length price
    ∧ ∀ i, i < length price →
        (i < 13 → rsi !! i = Some NaN)
        ∧ (13 ≤ i →
           (no_fall price i → no_rise price i → rsi !! i = Some NaN)
           ∧ (no_fall price i → ¬ no_rise price i →
              ∃ v, rsi !! i = Some (Fin v) ∧ (v == 100)%Q)
           ∧ (¬ no_fall price i →
              ∃ v, rsi !! i = Some (Fin v) ∧ (0 <= v)%Q ∧ (v <= 100)%Q)).
Proof.
  intros Hclose.
  destruct (indicators_of_inr data _ Hclose)
    as (df & Hdf & _ & _ & _ & _ & _ & _ & _ & _ & _ & _ & Hrsi & _).
  apply df_get_inr in Hrsi.
  exists df, (rsi_of (Fin <$> price)).
  split; [exact Hdf |]. split; [exact Hrsi |].
  split; [by rewrite rsi_of_length, length_fmap |].
  intros i Hi. rewrite rsi_of_lookup by done. split.
  - intros H13. by rewrite decide_False by lia.
  - intros H13. rewrite decide_True by done. cbv zeta.
    set (Wg := take 14 (drop (i + 1 - 14) (gains_q price))).
    set (Wl := take 14 (drop (i + 1 - 14) (losses_q price))).
    assert (HWg : Forall (λ q, (0 <= q)%Q) Wg).
    { apply Forall_take, Forall_drop, gains_q_nonneg. }
    assert (HWl : Forall (λ q, (0 <= q)%Q) Wl).
    { apply Forall_take, Forall_drop, losses_q_nonneg. }
    assert (H14 : (0 < Q_of_nat 14)%Q) by (apply Q_of_nat_pos; lia).
    assert (HG : (0 <= Qsum Wg / Q_of_nat 14)%Q).
    { apply Qle_shift_div_l; [done |]. pose proof (Qsum_nonneg Wg HWg). lra. }
    assert (HL : (0 <= Qsum Wl / Q_of_nat 14)%Q).
    { apply Qle_shift_div_l; [done |]. pose proof (Qsum_nonneg Wl HWl). lra. }
    assert (Hne : price ≠ []) by (intros ->; simpl in Hi; lia).
    assert (Hrise : (Qsum Wg / Q_of_nat 14 == 0)%Q ↔ no_rise price i).
    { transitivity (Qsum Wg == 0)%Q.
      - split; intros E.
        + assert (E' : (Qsum Wg / Q_of_nat 14 * Q_of_nat 14 == 0)%Q)
            by (rewrite E; ring).
          rewrite Qmult_comm, Qmult_div_r in E' by lra. exact E'.
        + rewrite E. field. lra.
      - rewrite (Qsum_zero Wg HWg). subst Wg. unfold gains_q.
        destruct price as [|p0 tl]; [done |].
        rewrite (window_zero gain_q 0%Q (p0 :: tl) i) by (done || reflexivity).
        unfold no_rise. split; intros Hw j p q Hj1 Hj2 Hp Hq.
        * specialize (Hw j p q Hj1 Hj2 Hp Hq). apply gain_q_zero in Hw. lra.
        * apply gain_q_zero. specialize (Hw j p q Hj1 Hj2 Hp Hq). lra. }
    assert (Hfall : (Qsum Wl / Q_of_nat 14 == 0)%Q ↔ no_fall price i).
    { transitivity (Qsum Wl == 0)%Q.
      - split; intros E.
        + assert (E' : (Qsum Wl / Q_of_nat 14 * Q_of_nat 14 == 0)%Q)
            by (rewrite E; ring).
          rewrite Qmult_comm, Qmult_div_r in E' by lra. exact E'.
        + rewrite E. field. lra.
      - rewrite (Qsum_zero Wl HWl). subst Wl. unfold losses_q.
        destruct price as [|p0 tl]; [done |].
        rewrite (window_zero loss_q (- 0)%Q (p0 :: tl) i) by (done || reflexivity).
        unfold no_fall. split; intros Hw j p q Hj1 Hj2 Hp Hq.
        * specialize (Hw j p q Hj1 Hj2 Hp Hq). apply loss_q_zero in Hw. lra.
        * apply loss_q_zero. specialize (Hw j p q Hj1 Hj2 Hp Hq). lra. }
    destruct (rsi_value _ _ HG HL) as (Hnan & Hfull & Hmid).
    split; [| split].
    + intros Hnf Hnr. f_equal. apply Hnan; [by apply Hfall | by apply Hrise].
    + intros Hnf Hnr.
      destruct Hfull as (v & -> & Hv); [by apply Hfall | | by eauto].
      destruct (Qlt_le_dec 0 (Qsum Wg / Q_of_nat 14)) as [?|Hle]; [done |].
      exfalso. apply Hnr, Hrise. lra.
    + intros Hnf.
      destruct Hmid as (v & -> & Hv0 & Hv100 & _);
        [| exists v; split; [done |]; split; [done | lra]].
      destruct (Qlt_le_dec 0 (Qsum Wl / Q_of_nat 14)) as [?|Hle]; [done |].
      exfalso. apply Hnf, Hfall. lra.
Qed.

End RsiClaim.

(** C4 as stated fails: on 16 equal closes the average loss over the window
    that ends at index 14 is zero, and the value there is NaN, not 100. *)
Lemma flat_window_rsi_is_nan :
  ∃ df rsi,
    @indicators_of approx_sqrt (daily_frame (flat 7) 16) = inr df
    ∧ columns df !! "RSI" = Some rsi
    ∧ no_fall (flat 7 <$> seq 0 16) 14
    ∧ rsi !! 14 = Some NaN
    ∧ ¬ ∃ v, rsi !! 14 = Some (Fin v) ∧ (0 <= v)%Q ∧ (v <= 100)%Q.
Proof.
  destruct (@indicators_of_inr approx_sqrt (daily_frame (flat 7) 16)
              (Fin <$> (flat 7 <$> seq 0 16)))
    as (df & Hdf & _ & _ & _ & _ & _ & _ & _ & _ & _ & _ & Hrsi & _).
  { vm_compute. reflexivity. }
  apply df_get_inr in Hrsi. exists df, (rsi_of (Fin <$> (flat 7 <$> seq 0 16))).
  split; [exact Hdf |]. split; [exact Hrsi |]. split; [| split].
  - intros j p q _ _ Hp Hq.
    apply list_elem_of_lookup_2, list_elem_of_fmap in Hp as (? & -> & _).
    apply list_elem_of_lookup_2, list_elem_of_fmap in Hq as (? & -> & _).
    unfold flat. lra.
  - vm_compute. reflexivity.
  - intros (v & Hv & _). vm_compute in Hv. discriminate.
Qed.

Lemma rsi_range_witness :
  ∃ df rsi,
    @indicators_of approx_sqrt (daily_frame ramp 20) = inr df
    ∧ columns df !! "RSI" = Some rsi
    ∧ length rsi = length (ramp <$> seq 0 20)
    ∧ ∀ i, i < length (ramp <$> seq 0 20) →
        (i < 13 → rsi !! i = Some NaN)
        ∧ (13 ≤ i →
           (no_fall (ramp <$> seq 0 20) i → no_rise (ramp <$> seq 0 20) i →
            rsi !! i = Some NaN)
           ∧ (no_fall (ramp <$> seq 0 20) i → ¬ no_rise (ramp <$> seq 0 20) i →
              ∃ v, rsi !! i = Some (Fin v) ∧ (v == 100)%Q)
           ∧ (¬ no_fall (ramp <$> seq 0 20) i →
              ∃ v, rsi !! i = Some (Fin v) ∧ (0 <= v)%Q ∧ (v <= 100)%Q)).
Proof.
  apply (@rsi_range approx_sqrt (daily_frame ramp 20) (ramp <$> seq 0 20)).
  vm_compute. reflexivity.
Defined.

(** ** The indicator computation never raises *)

Lemma ewm_loop_length (alpha : Q) (vals : list xfloat) :
  ∀ weighted old_wt, length (ewm_loop alpha weighted old_wt vals) = length vals.
Proof.
  induction vals as [|cur rest IH]; intros weighted old_wt; [done |].
  cbn [ewm_loop]. destruct (is_nan weighted); [| destruct (is_nan cur)];
    cbn [length]; by rewrite IH.
Qed.

Lemma ewm_mean_length (span : nat) (s : list xfloat) :
  length (ewm_mean span s) = length s.
Proof.
  destruct s as [|v0 rest]; [done |]. cbn [ewm_mean length].
  by rewrite ewm_loop_length.
Qed.

Lemma diff_length (s : list xfloat) : length (diff s) = length s.
Proof.
  destruct s as [|x tl]; [done |]. cbn [diff length].
  rewrite length_zip_with. simpl. lia.
Qed.

Lemma shift_length (k : nat) (s : list xfloat) : length (shift k s) = length s.
Proof.
  unfold shift. rewrite length_take, length_app, length_replicate. lia.
Qed.

Lemma shift_warmup (k : nat) (s : list xfloat) (i : nat) :
  i < k → i < length s → shift k s !! i = Some NaN.
Proof.
  intros Hk Hi. unfold shift. rewrite lookup_take_lt by done.
  rewrite lookup_app_l by (by rewrite length_replicate).
  by apply lookup_replicate_2.
Qed.

Lemma xdiv_nan_r (x : xfloat) : xdiv x NaN = NaN.
Proof. by destruct x. Qed.

Lemma macd_of_length (close : list xfloat) : length (macd_of close) = length close.
Proof.
  unfold macd_of, s_sub. rewrite length_zip_with, !ewm_mean_length. lia.
Qed.

Lemma rsi_of_warmup (close : list xfloat) (i : nat) :
  i < 13 → i < length close → rsi_of close !! i = Some NaN.
Proof.
  intros H13 Hi. unfold rsi_of, s_div. cbv zeta.
  rewrite list_lookup_fmap, lookup_zip_with.
  rewrite !rolling_warmup
    by (unfold where_; rewrite ?length_fmap, ?diff_length; lia).
  reflexivity.
Qed.

Section NeverRaises.
Context `{FloatSqrt}.

Lemma bb_upper_of_length (close : list xfloat) :
  length (bb_upper_of close) = length close.
Proof.
  unfold bb_upper_of, s_add.
  rewrite length_zip_with, length_fmap, !rolling_length. lia.
Qed.

Lemma bb_lower_of_length (close : list xfloat) :
  length (bb_lower_of close) = length close.
Proof.
  unfold bb_lower_of, s_sub.
  rewrite length_zip_with, length_fmap, !rolling_length. lia.
Qed.

Lemma bb_upper_of_warmup (close : list xfloat) (i : nat) :
  i < 19 → i < length close → bb_upper_of close !! i = Some NaN.
Proof.
  intros H19 Hi. unfold bb_upper_of, s_add.
  rewrite lookup_zip_with, list_lookup_fmap, !rolling_warmup by lia.
  reflexivity.
Qed.

Lemma bb_lower_of_warmup (close : list xfloat) (i : nat) :
  i < 19 → i < length close → bb_lower_of close !! i = Some NaN.
Proof.
  intros H19 Hi. unfold bb_lower_of, s_sub.
  rewrite lookup_zip_with, list_lookup_fmap, !rolling_warmup by lia.
  reflexivity.
Qed.

(** One symbol: with a [Close] column the loop body returns a frame that
    keeps the index and the closes, holds every derived column at full
    length, and holds NaN at every position of a warm-up gap. *)
Lemma indicators_of_total (data : DataFrame) (close : list xfloat) :
  df_get data "Close" = inr close →
  ∃ df, indicators_of data = inr df
    ∧ index df = index data
    ∧ columns df !! "Close" = Some close
    ∧ Forall (λ c, ∃ col, columns df !! c = Some col
                          ∧ length col = length close) derived_columns
    ∧ Forall (λ '(c, gap), ∃ col, columns df !! c = Some col
                ∧ ∀ i, i < gap → i < length close → col !! i = Some NaN)
             warmup_gaps.
Proof.
  intros Hclose.
  destruct (indicators_of_inr data close Hclose)
    as (df & Hdf & Hidx & Hc & H20 & H50 & H200 & H12 & H26 & Hmacd & Hsig
        & Hhist & Hrsi & Hmid & Hstd & Hup & Hlo & Hwid & Hmom).
  rewrite df_get_inr in Hc, H20, H50, H200, H12, H26, Hmacd, Hsig, Hhist, Hrsi,
    Hmid, Hstd, Hup, Hlo, Hwid, Hmom.
  exists df. split; [exact Hdf |]. split; [exact Hidx |]. split; [exact Hc |].
  split.
  - unfold derived_columns.
    repeat (apply Forall_cons; split; [eexists; split; [eassumption |] |]);
      [.. | apply Forall_nil; exact I];
      unfold s_sub, s_div;
      rewrite ?length_zip_with, ?rolling_length, ?ewm_mean_length,
        ?macd_of_length, ?rsi_of_length, ?bb_upper_of_length,
        ?bb_lower_of_length, ?shift_length, ?ewm_mean_length, ?macd_of_length;
      lia.
  - unfold warmup_gaps.
    repeat (apply Forall_cons; split; [eexists; split; [eassumption |] |]);
      [.. | apply Forall_nil; exact I]; intros i Hgap Hi.
    + apply rolling_warmup; lia.
    + apply rolling_warmup; lia.
    + apply rolling_warmup; lia.
    + by apply rsi_of_warmup.
    + apply rolling_warmup; lia.
    + apply rolling_warmup; lia.
    + by apply bb_upper_of_warmup.
    + by apply bb_lower_of_warmup.
    + unfold s_div, s_sub.
      rewrite !lookup_zip_with, bb_upper_of_warmup, bb_lower_of_warmup,
        rolling_warmup by lia.
      reflexivity.
    + unfold s_div. rewrite lookup_zip_with, shift_warmup by lia.
      destruct (lookup_lt_is_Some_2 close i Hi) as [c ->]. simpl.
      by rewrite xdiv_nan_r.
Qed.

(** The loop over the collected symbols. *)
Lemma indicators_loop (l : list (string * DataFrame)) :
  ∀ ti : gmap string DataFrame,
    NoDup l.*1 →
    (∀ symbol data, (symbol, data) ∈ l → is_Some (columns data !! "Close")) →
    ∃ ti',
      for_each (λ ti '(symbol, data),
                  df ← indicators_of data; mret (<[symbol := df]> ti)) ti l
      = inr ti'
      ∧ (∀ symbol data, (symbol, data) ∈ l →
           ∃ df, ti' !! symbol = Some df ∧ indicators_of data = inr df)
      ∧ (∀ symbol, symbol ∉ l.*1 → ti' !! symbol = ti !! symbol).
Proof.
  induction l as [|[k d] l IH]; intros ti Hnd Hclose.
  - exists ti. split; [done |]. split; [| done].
    intros symbol data Hin. by apply elem_of_nil in Hin.
  - rewrite fmap_cons in Hnd. apply NoDup_cons in Hnd as [Hk Hnd].
    destruct (Hclose k d ltac:(left)) as [close Hc].
    apply df_get_inr in Hc.
    destruct (indicators_of_total d close Hc) as (df & Hdf & _).
    destruct (IH (<[k := df]> ti) Hnd) as (ti' & Hloop & Hin & Hout).
    { intros symbol data Hsd. apply (Hclose symbol data). by right. }
    exists ti'. split; [| split].
    + cbn [for_each]. rewrite Hdf. cbn [mbind exn_bind mret exn_ret].
      exact Hloop.
    + intros symbol data Hsd. apply elem_of_cons in Hsd as [[= -> ->]|Hsd].
      * exists df. split; [| exact Hdf].
        rewrite (Hout k Hk). apply lookup_insert_eq.
      * by apply Hin.
    + intros symbol Hsym. rewrite fmap_cons in Hsym.
      apply not_elem_of_cons in Hsym as [Hne Hsym].
      rewrite (Hout symbol Hsym). by apply lookup_insert_ne.
Qed.

(** C9: when every collected frame has a [Close] column,
    [calculate_technical_indicators] returns.  It leaves the collected data
    unchanged and stores, for every symbol, the frame of its indicators: that
    frame keeps the index and the closes, holds each derived column at the
    length of the series, and holds NaN at every position of a warm-up gap
    (the first 19, 49 and 199 positions of the moving averages, the first 13
    of the RSI, the first 19 of the band columns and the first 10 of the
    momentum). *)
Theorem indicators_never_raise `{Regressor} (self : StockAnalysisSystem) :
  (∀ symbol data, stock_data self !! symbol = Some data →
     is_Some (columns data !! "Close")) →
  ∃ self',
    calculate_technical_indicators self = inr self'
    ∧ stock_data self' = stock_data self
    ∧ ∀ symbol data, stock_data self !! symbol = Some data →
        ∃ df close,
          technical_indicators self' !! symbol = Some df
          ∧ indicators_of data = inr df
          ∧ index df = index data
          ∧ columns data !! "Close" = Some close
          ∧ columns df !! "Close" = Some close
          ∧ Forall (λ c, ∃ col, columns df !! c = Some col
                                ∧ length col = length close) derived_columns
          ∧ Forall (λ '(c, gap), ∃ col, columns df !! c = Some col
                      ∧ ∀ i, i < gap → i < length close → col !! i = Some NaN)
                   warmup_gaps.
Proof.
  intros Hclose.
  destruct (indicators_loop (map_to_list (stock_data self))
              (technical_indicators self)) as (ti' & Hloop & Hin & _).
  { apply NoDup_fst_map_to_list. }
  { intros symbol data Hsd. apply (Hclose symbol data).
    by apply elem_of_map_to_list. }
  eexists. split.
  { unfold calculate_technical_indicators. rewrite Hloop. reflexivity. }
  split; [reflexivity |]. cbn [technical_indicators].
  intros symbol data Hsd.
  destruct (Hin symbol data) as (df & Hti & Hdf).
  { by apply elem_of_map_to_list. }
  destruct (Hclose symbol data Hsd) as [close Hc].
  destruct (indicators_of_total data close) as (df' & Hdf' & Hrest).
  { by apply df_get_inr. }
  assert (df' = df) as -> by congruence.
  exists df, close. split; [exact Hti |]. split; [exact Hdf |].
  destruct Hrest as (? & ? & ? & ?). done.
Qed.

End NeverRaises.

Lemma indicators_never_raise_witness :
  ∃ self',
    @calculate_technical_indicators approx_sqrt persistence sample_system
    = inr self'
    ∧ stock_data self' = stock_data sample_system
    ∧ ∀ symbol data, stock_data sample_system !! symbol = Some data →
        ∃ df close,
          technical_indicators self' !! symbol = Some df
          ∧ @indicators_of approx_sqrt data = inr df
          ∧ index df = index data
          ∧ columns data !! "Close" = Some close
          ∧ columns df !! "Close" = Some close
          ∧ Forall (λ c, ∃ col, columns df !! c = Some col
                                ∧ length col = length close) derived_columns
          ∧ Forall (λ '(c, gap), ∃ col, columns df !! c = Some col
                      ∧ ∀ i, i < gap → i < length close → col !! i = Some NaN)
                   warmup_gaps.
Proof.
  apply (@indicators_never_raise approx_sqrt persistence sample_system).
  intros symbol data Hsd. unfold sample_system in Hsd. cbn [stock_data] in Hsd.
  apply lookup_singleton_Some in Hsd as [_ <-]. vm_compute. eauto.
Defined.

(** ** When the forecasting pipeline returns *)

Lemma nanmin_finite (X : list xfloat) :
  X ≠ [] → Forall (λ x, is_finite x = true) X → is_finite (nanmin X) = true.
Proof.
  intros Hne Hall. induction Hall as [|x l Hx Hl IH]; [done |].
  unfold nanmin in *. cbn [foldr]. destruct x as [a| | |]; try done.
  destruct l as [|y l]; [done |]. specialize (IH ltac:(done)).
  destruct (foldr nan_min2 NaN (y :: l)) as [b| | |]; try done.
  simpl. by destruct (xleb (Fin a) (Fin b)).
Qed.

Lemma nanmax_finite (X : list xfloat) :
  X ≠ [] → Forall (λ x, is_finite x = true) X → is_finite (nanmax X) = true.
Proof.
  intros Hne Hall. induction Hall as [|x l Hx Hl IH]; [done |].
  unfold nanmax in *. cbn [foldr]. destruct x as [a| | |]; try done.
  destruct l as [|y l]; [done |]. specialize (IH ltac:(done)).
  destruct (foldr nan_max2 NaN (y :: l)) as [b| | |]; try done.
  simpl. by destruct (xleb (Fin a) (Fin b)).
Qed.

(** A scaler fitted on finite values maps finite values to finite values,
    both ways. *)
Lemma scaler_fit_finite (X : list xfloat) (s : MinMaxScaler) :
  Forall (λ x, is_finite x = true) X → scaler_fit X = inr s →
  (∀ x, is_finite x = true → is_finite (transform1 s x) = true)
  ∧ (∀ y, is_finite y = true → is_finite (inverse1 s y) = true).
Proof.
  intros Hfin Hfit.
  apply scaler_fit_inr in Hfit as (Hchk & Hlo & Hhi & _ & Hscale & Hmin).
  apply check_array_inr in Hchk as (_ & Hne & _).
  pose proof (nanmin_finite X Hne Hfin) as Flo. rewrite <- Hlo in Flo.
  pose proof (nanmax_finite X Hne Hfin) as Fhi. rewrite <- Hhi in Fhi.
  destruct (data_min_ s) as [lo| | |] eqn:Elo; try done.
  destruct (data_max_ s) as [hi| | |] eqn:Ehi; try done.
  rewrite <- Elo in Hmin. rewrite <- Elo, <- Ehi in Hscale.
  destruct (Qlt_le_dec (hi - lo) (10 * eps)) as [Hlt|Hne'].
  - destruct (scaler_degenerate s lo hi Elo Ehi Hlt Hscale Hmin) as (_ & Ht & Hi).
    split.
    + intros [x| | |] Hx; try done. specialize (Ht x).
      by destruct (transform1 s (Fin x)).
    + intros [y| | |] Hy; try done. specialize (Hi y).
      by destruct (inverse1 s (Fin y)).
  - destruct (scaler_affine s lo hi Elo Ehi Hne' Hscale Hmin) as [Ht Hi].
    split.
    + intros [x| | |] Hx; try done. specialize (Ht x).
      by destruct (transform1 s (Fin x)).
    + intros [y| | |] Hy; try done. specialize (Hi y).
      by destruct (inverse1 s (Fin y)).
Qed.

Lemma scaler_inverse_transform_finite (s : MinMaxScaler) (X : list xfloat) :
  X ≠ [] → Forall (λ x, is_finite x = true) X →
  scaler_inverse_transform s X = inr (inverse1 s <$> X).
Proof.
  intros Hne Hfin. unfold scaler_inverse_transform.
  by rewrite check_array_finite.
Qed.

Lemma mean_squared_error_finite (y_true y_pred : list xfloat) :
  y_true ≠ [] → length y_true = length y_pred →
  Forall (λ x, is_finite x = true) y_true →
  Forall (λ x, is_finite x = true) y_pred →
  ∃ mse, mean_squared_error y_true y_pred = inr mse.
Proof.
  intros Hne Hlen Ht Hp. unfold mean_squared_error.
  rewrite (check_array_finite false y_true) by done. cbn [mbind exn_bind].
  rewrite (check_array_finite false y_pred);
    [| intros E; rewrite E in Hlen; by destruct y_true | done].
  cbn [mbind exn_bind]. rewrite bool_decide_eq_true_2 by done. eauto.
Qed.

Lemma length_pos_ne_nil {A} (l : list A) : 0 < length l → l ≠ [].
Proof. intros Hl ->. simpl in Hl. lia. Qed.

Section Returns.
Context `{FloatSqrt} `{Regressor}.

Lemma rollout_predictions (m : Model) (t : nat) (w0 : list xfloat) (i : nat)
    (P : xfloat → Prop) :
  0 < t → length w0 = t → (∀ w, P (keras_predict m w)) →
  ∃ w preds, rollout m t w0 (Z.of_nat i) = inr (w, preds)
    ∧ length preds = i ∧ Forall P preds.
Proof.
  intros Ht Hw0 HP. induction i as [|i (w & preds & Hi & Hp & Hall)].
  - exists w0, []. done.
  - destruct (rollout_invariant m t w0 i Ht Hw0) as (w' & preds' & Hi' & Hw' & _).
    rewrite Hi in Hi'. injection Hi' as <- <-.
    rewrite rollout_succ, Hi. cbn [mbind exn_bind].
    rewrite rollout_step_slides by done. eexists _, _. split; [done |].
    split; [rewrite length_app; simpl; lia |].
    apply Forall_app. split; [done |]. by apply Forall_singleton.
Qed.

(** On a series of finite closes that leaves at least one training window
    and one test window, for a positive horizon and a regressor that predicts
    finite values, the run gets as far as the future dates: it returns when
    they can be made, and raises what making them raises. *)
Lemma lstm_run_reaches_dates (t : nat) (data : DataFrame) (days : Z)
    (price : list Q) (ld : Z) :
  df_get data "Close" = inr (Fin <$> price) →
  last (index data) = Some ld →
  0 < t → t < training_len (length price) →
  training_len (length price) < length price →
  (0 < days)%Z →
  (∀ m w, is_finite (keras_predict m w) = true) →
  match start ← timestamp_add ld day; date_range start days with
  | inl e => lstm_run t data days = inl e
  | inr _ => ∃ r, lstm_run t data days = inr r
  end.
Proof.
  intros Hclose Hlast Ht Htdl Htest Hdays Hreg.
  set (close := Fin <$> price) in *.
  set (n := length price) in *.
  assert (Hfin : Forall (λ x, is_finite x = true) close).
  { subst close. apply Forall_fmap, Forall_forall. done. }
  assert (Hlen : length close = n) by (subst close; by rewrite length_fmap).
  assert (Hne : close ≠ []).
  { intros E. rewrite E in Hlen. simpl in Hlen. lia. }
  destruct (scaler_fit_checked close (check_array_finite true close Hne Hfin))
    as [s Hfit].
  destruct (scaler_fit_finite close s Hfin Hfit) as [Htr Hinv].
  pose proof (scaler_fit_transform_eq close s Hfit) as Hft.
  set (scaled := transform1 s <$> close) in *.
  assert (Hls : length scaled = n) by (subst scaled; by rewrite length_fmap).
  unfold lstm_run. rewrite Hclose. cbn [mbind exn_bind]. rewrite Hft.
  cbn [mbind exn_bind]. rewrite Hls. set (tdl := training_len n) in *.
  rewrite windows_eq, slice_prefix. cbn [mbind exn_bind].
  rewrite length_take, Hls. replace (tdl `min` n) with tdl by lia.
  destruct (window_before t (take tdl scaled) <$> range t tdl)
    as [|xw xtr] eqn:Hxtr.
  { apply (f_equal length) in Hxtr.
    rewrite length_fmap, range_length in Hxtr. simpl in Hxtr. lia. }
  cbn [reshape_windows mbind exn_bind].
  replace (Z.of_nat tdl - Z.of_nat t)%Z with (Z.of_nat (tdl - t)) by lia.
  rewrite !slice_from_nat, input_windows_eq, length_drop, Hls.
  destruct (window_before t (drop (tdl - t) scaled) <$> range t (n - (tdl - t)))
    as [|tw xte] eqn:Hxte.
  { apply (f_equal length) in Hxte.
    rewrite length_fmap, range_length in Hxte. simpl in Hxte. lia. }
  cbn [reshape_windows mbind exn_bind].
  set (m := keras_fit (xw :: xtr) (drop t (take tdl scaled))).
  set (raw := keras_predict m <$> (tw :: xte)).
  assert (Hraw : Forall (λ x, is_finite x = true) raw).
  { subst raw. apply Forall_fmap, Forall_forall. intros w _. apply Hreg. }
  assert (Hlraw : length raw = n - tdl).
  { subst raw. rewrite length_fmap, <- Hxte, length_fmap, range_length. lia. }
  rewrite (scaler_inverse_transform_finite s raw)
    by (done || apply length_pos_ne_nil; lia).
  cbn [mbind exn_bind].
  set (preds := inverse1 s <$> raw).
  assert (Hpreds : Forall (λ x, is_finite x = true) preds).
  { subst preds. apply Forall_fmap. eapply Forall_impl; [exact Hraw |].
    intros y Hy. by apply Hinv. }
  assert (Hlp : length preds = n - tdl) by (subst preds; by rewrite length_fmap).
  assert (Hyt : Forall (λ x, is_finite x = true) (drop tdl close))
    by (by apply Forall_drop).
  assert (Hlyt : length (drop tdl close) = n - tdl)
    by (rewrite length_drop; lia).
  destruct (mean_squared_error_finite (drop tdl close) preds) as [mse ->];
    [apply length_pos_ne_nil; lia | lia | done | done |].
  cbn [mbind exn_bind].
  rewrite slice_from_last by lia. unfold reshape_1_k_1.
  rewrite bool_decide_eq_true_2 by (rewrite length_drop; lia).
  cbn [mbind exn_bind].
  destruct (rollout_predictions m t (drop (length scaled - t) scaled)
              (Z.to_nat days) (λ x, is_finite x = true) Ht)
    as (w & fut & Hroll & Hlfut & Hfut); [rewrite length_drop; lia | apply Hreg |].
  rewrite <- rollout_to_nat in Hroll. rewrite Hroll. cbn [mbind exn_bind].
  rewrite (scaler_inverse_transform_finite s fut)
    by (done || apply length_pos_ne_nil; lia).
  cbn [mbind exn_bind].
  unfold item_last. rewrite Hlast. cbn [mbind exn_bind].
  destruct (timestamp_add ld day) as [e|start]; cbn [mbind exn_bind]; [done |].
  destruct (date_range start days) as [e|dates] eqn:Hdates;
    cbn [mbind exn_bind]; [done |].
  apply date_range_inr in Hdates.
  unfold frame_of. rewrite bool_decide_eq_true_2
    by (by rewrite Hdates, length_fmap).
  cbn [mbind exn_bind mret exn_ret]. eauto.
Qed.

Lemma future_dates_in_bounds (ld days : Z) :
  timestamp_in_bounds ld = true → (0 < days)%Z → (ld + days * day <= i8max)%Z →
  ∃ dates, (start ← timestamp_add ld day; date_range start days) = inr dates.
Proof.
  intros Hld Hdays Hmax. unfold timestamp_in_bounds in Hld.
  apply andb_true_iff in Hld as [Hlo _]. apply Z.leb_le in Hlo.
  assert (Hday : (0 < day)%Z) by reflexivity.
  unfold timestamp_add, timestamp_in_bounds.
  rewrite (proj2 (Z.leb_le _ _)) by lia.
  rewrite (proj2 (Z.leb_le _ _)) by nia.
  cbn [andb mbind exn_bind]. unfold date_range.
  destruct (Z.ltb_spec days 0); [lia |].
  rewrite (proj2 (Z.ltb_ge i8max _)) by nia. rewrite andb_false_r. eauto.
Qed.


(** The run returns on every series of finite closes that leaves at least one
    training window and one test window, for a positive horizon that ends
    within the range of the timestamps, when the regressor predicts finite
    values. *)
Lemma lstm_run_returns (t : nat) (data : DataFrame) (days : Z) (price : list Q)
    (ld : Z) :
  df_get data "Close" = inr (Fin <$> price) →
  last (index data) = Some ld → timestamp_in_bounds ld = true →
  0 < t → t < training_len (length price) →
  training_len (length price) < length price →
  (0 < days)%Z → (ld + days * day <= i8max)%Z →
  (∀ m w, is_finite (keras_predict m w) = true) →
  ∃ r, lstm_run t data days = inr r.
Proof.
  intros Hclose Hlast Hld Ht Htdl Htest Hdays Hmax Hreg.
  pose proof (lstm_run_reaches_dates t data days price ld Hclose Hlast Ht Htdl
                Htest Hdays Hreg) as Hrun.
  destruct (future_dates_in_bounds ld days Hld Hdays Hmax) as [dates Hd].
  by rewrite Hd in Hrun.
Qed.

End Returns.

(** * Further properties *)

(** ** The return columns *)

Lemma shift_lookup (k : nat) (s : list xfloat) (i : nat) :
  k ≤ i → i < length s → shift k s !! i = s !! (i - k).
Proof.
  intros Hk Hi. unfold shift. rewrite lookup_take_lt by done.
  rewrite lookup_app_r by (by rewrite length_replicate).
  by rewrite length_replicate.
Qed.

Lemma s_div_shift1 (s : list xfloat) :
  s_div s (shift 1 s) = match s with
                        | [] => []
                        | _ :: tl => NaN :: zip_with xdiv tl s
                        end.
Proof.
  destruct s as [|x tl]; [done |]. unfold s_div, shift.
  cbn [length replicate app take zip_with]. rewrite xdiv_nan_r. f_equal.
  apply (zip_with_take_r xdiv tl (x :: tl)).
Qed.

Lemma zip_with_xdiv_fin (a b : list Q) :
  Forall (λ q, ¬ (q == 0)%Q) b →
  zip_with xdiv (Fin <$> a) (Fin <$> b) = Fin <$> zip_with Qdiv a b.
Proof.
  intros Hb. revert a. induction Hb as [|y b Hy _ IH]; intros [|x a]; try done.
  rewrite !fmap_cons. cbn [zip_with]. rewrite fmap_cons, xdiv_fin by done.
  f_equal. apply IH.
Qed.

Lemma fmap_fin (F : xfloat → xfloat) (f : Q → Q) (l : list Q) :
  (∀ x, F (Fin x) = Fin (f x)) → F <$> (Fin <$> l) = Fin <$> (f <$> l).
Proof.
  intros HF. induction l as [|x l IH]; [done |].
  rewrite !fmap_cons, HF. f_equal. exact IH.
Qed.

Lemma cumprod_from_fin (a : Q) (l : list Q) :
  cumprod_from (Fin a) (Fin <$> l) = Fin <$> cumprod_q a l.
Proof.
  revert a. induction l as [|x l IH]; intros a; [done |].
  rewrite fmap_cons. cbn [cumprod_from is_nan xmul cumprod_q].
  rewrite fmap_cons. f_equal. apply IH.
Qed.

Lemma ratios_q_lookup (price : list Q) (i : nat) (p q : Q) :
  price !! i = Some p → price !! S i = Some q →
  ratios_q price !! i = Some (q / p)%Q.
Proof.
  intros Hp Hq. unfold ratios_q. rewrite lookup_zip_with.
  destruct price as [|p0 tl]; [done |]. cbn [tail].
  simpl in Hq. rewrite Hq. simpl. rewrite Hp. reflexivity.
Qed.

Lemma ratios_q_length (price : list Q) : length (ratios_q price) = length price - 1.
Proof.
  unfold ratios_q. rewrite length_zip_with. destruct price; simpl; lia.
Qed.

Lemma cumprod_q_length (a : Q) (l : list Q) : length (cumprod_q a l) = length l.
Proof. revert a. induction l as [|x l IH]; intros a; simpl; [done | by rewrite IH]. Qed.

(** The running product of the growth factors telescopes. *)
Lemma cumprod_q_telescope (rest : list Q) :
  ∀ (p a : Q) (i : nat) (q : Q),
    ¬ (p == 0)%Q → Forall (λ x, ¬ (x == 0)%Q) rest →
    rest !! i = Some q →
    ∃ c, cumprod_q a ((λ d, 1 + d / 100)%Q <$> daily_q (p :: rest)) !! i = Some c
         ∧ (c == a * q / p)%Q.
Proof.
  induction rest as [|q0 rest IH]; intros p a i q Hp Hrest Hi; [done |].
  apply Forall_cons in Hrest as [Hq0 Hrest].
  unfold daily_q, ratios_q. cbn [tail zip_with]. rewrite !fmap_cons.
  cbn [cumprod_q].
  destruct i as [|i].
  - injection Hi as <-. eexists. split; [reflexivity |]. field. done.
  - simpl in Hi.
    destruct (IH q0 (a * (1 + (q0 / p + - (1)) * 100 / 100))%Q i q Hq0 Hrest Hi)
      as (c & Hc & Hv).
    exists c. split; [exact Hc |]. rewrite Hv. field. done.
Qed.

Lemma daily_fin (price : list Q) :
  Forall (λ p, ¬ (p == 0)%Q) price →
  (λ r, xmul r (Fin 100)) <$> pct_change (Fin <$> price)
  = match price with
    | [] => []
    | _ :: _ => NaN :: (Fin <$> daily_q price)
    end.
Proof.
  intros Hnz. unfold pct_change. rewrite s_div_shift1.
  destruct price as [|p0 rest]; [done |]. rewrite fmap_cons.
  change (Fin p0 :: (Fin <$> rest)) with (Fin <$> (p0 :: rest)).
  rewrite (zip_with_xdiv_fin rest (p0 :: rest)) by done.
  rewrite !fmap_cons. cbn [xsub xopp xadd xmul]. f_equal.
  rewrite (fmap_fin _ (λ r, r + - (1))%Q) by done.
  rewrite (fmap_fin _ (λ r, r * 100)%Q) by done.
  unfold daily_q, ratios_q. cbn [tail]. f_equal.
  rewrite <- list_fmap_compose. reflexivity.
Qed.

Lemma cum_fin (dq : list Q) :
  (λ c, xmul c (Fin 100))
    <$> ((λ p, xsub p (Fin 1))
           <$> cumprod ((λ d, xadd (Fin 1) (xdiv d (Fin 100)))
                          <$> (NaN :: (Fin <$> dq))))
  = NaN :: (Fin <$> cum_q dq).
Proof.
  rewrite fmap_cons. cbn [xdiv xadd]. unfold cumprod.
  cbn [cumprod_from is_nan]. rewrite !fmap_cons. cbn [xsub xopp xadd xmul].
  f_equal.
  rewrite (fmap_fin _ (λ d, 1 + d / 100)%Q) by done.
  rewrite cumprod_from_fin.
  rewrite (fmap_fin _ (λ r, r + - (1))%Q) by done.
  rewrite (fmap_fin _ (λ r, r * 100)%Q) by done.
  unfold cum_q. f_equal. rewrite <- list_fmap_compose. reflexivity.
Qed.

Lemma daily_q_length (price : list Q) : length (daily_q price) = length price - 1.
Proof. unfold daily_q. by rewrite length_fmap, ratios_q_length. Qed.

Lemma cum_q_length (dq : list Q) : length (cum_q dq) = length dq.
Proof. unfold cum_q. by rewrite length_fmap, cumprod_q_length, length_fmap. Qed.

(** The two return columns on a series of finite, non-zero closes. *)
Lemma add_returns_inr (data : DataFrame) (price : list Q) :
  df_get data "Close" = inr (Fin <$> price) →
  Forall (λ p, ¬ (p == 0)%Q) price →
  ∃ df daily cum,
    add_returns data = inr df
    ∧ index df = index data
    ∧ columns df !! "Close" = Some (Fin <$> price)
    ∧ columns df !! "Daily_Return" = Some daily
    ∧ columns df !! "Cum_Return" = Some cum
    ∧ length daily = length price ∧ length cum = length price
    ∧ (price ≠ [] → daily !! 0 = Some NaN ∧ cum !! 0 = Some NaN)
    ∧ ∀ i p0 p q,
        price !! 0 = Some p0 → price !! i = Some p → price !! S i = Some q →
        ∃ d c, daily !! S i = Some (Fin d) ∧ (d == (q / p - 1) * 100)%Q
               ∧ cum !! S i = Some (Fin c) ∧ (c == (q / p0 - 1) * 100)%Q.
Proof.
  intros Hclose Hnz. unfold add_returns. rewrite Hclose. cbn [mbind exn_bind].
  rewrite df_get_set_eq. cbn [mbind exn_bind]. rewrite df_get_set_eq.
  cbn [mbind exn_bind mret exn_ret]. rewrite (daily_fin price Hnz).
  apply df_get_inr in Hclose.
  destruct price as [|p0 rest].
  { eexists _, _, _. split; [reflexivity |]. split; [reflexivity |].
    split; [cbn [df_set columns]; by rewrite !lookup_insert_ne by done |].
    split; [cbn [df_set columns];
            rewrite !lookup_insert_ne by done; apply lookup_insert_eq |].
    split; [cbn [df_set columns]; apply lookup_insert_eq |].
    repeat split; done. }
  rewrite cum_fin.
  exists (df_set
            (df_set (df_set data "Daily_Return" (NaN :: (Fin <$> daily_q (p0 :: rest))))
                    "Cum_Return"
                    ((λ p, xsub p (Fin 1))
                       <$> cumprod ((λ d, xadd (Fin 1) (xdiv d (Fin 100)))
                                      <$> (NaN :: (Fin <$> daily_q (p0 :: rest))))))
            "Cum_Return" (NaN :: (Fin <$> cum_q (daily_q (p0 :: rest))))),
    (NaN :: (Fin <$> daily_q (p0 :: rest))),
    (NaN :: (Fin <$> cum_q (daily_q (p0 :: rest)))).
  split; [reflexivity |]. split; [reflexivity |].
  split; [cbn [df_set columns]; by rewrite !lookup_insert_ne by done |].
  split; [cbn [df_set columns];
          rewrite !lookup_insert_ne by done; apply lookup_insert_eq |].
  split; [cbn [df_set columns]; apply lookup_insert_eq |].
  split.
  { cbn [length]. rewrite length_fmap, daily_q_length. simpl. lia. }
  split.
  { cbn [length]. rewrite length_fmap, cum_q_length, daily_q_length. simpl. lia. }
  split; [done |].
  intros i p0' p q Hp0 Hp Hq. injection Hp0 as <-.
  assert (Hpz : ¬ (p == 0)%Q).
  { eapply Forall_lookup_1 in Hnz; [exact Hnz | exact Hp]. }
  apply Forall_cons in Hnz as [Hp0 Hrest].
  destruct (cumprod_q_telescope rest p0 1%Q i q Hp0 Hrest Hq) as (c & Hc & Hv).
  exists ((q / p + - (1)) * 100)%Q, ((c + - (1)) * 100)%Q.
  assert (Hd : (Fin <$> daily_q (p0 :: rest)) !! i
               = Some (Fin ((q / p + - (1)) * 100)%Q)).
  { rewrite list_lookup_fmap. unfold daily_q.
    rewrite list_lookup_fmap, (ratios_q_lookup (p0 :: rest) i p q Hp Hq).
    reflexivity. }
  assert (Hcum : (Fin <$> cum_q (daily_q (p0 :: rest))) !! i
                 = Some (Fin ((c + - (1)) * 100)%Q)).
  { rewrite list_lookup_fmap. unfold cum_q.
    rewrite list_lookup_fmap, Hc. reflexivity. }
  split; [exact Hd |]. split; [unfold Qminus; reflexivity |].
  split; [exact Hcum |]. rewrite Hv. field. done.
Qed.

(** X1: on a fetched frame of finite, non-zero closes the return columns are
    as long as the series and undefined at the first row; from the second row
    on, the daily return is the change from the previous close in percent and
    the cumulative return is the change from the first close in percent. *)
Theorem cumulative_return_telescopes (data : DataFrame) (price : list Q) :
  df_get data "Close" = inr (Fin <$> price) →
  Forall (λ p, ¬ (p == 0)%Q) price →
  ∃ df daily cum,
    add_returns data = inr df
    ∧ columns df !! "Close" = Some (Fin <$> price)
    ∧ columns df !! "Daily_Return" = Some daily
    ∧ columns df !! "Cum_Return" = Some cum
    ∧ length daily = length price ∧ length cum = length price
    ∧ (price ≠ [] → daily !! 0 = Some NaN ∧ cum !! 0 = Some NaN)
    ∧ ∀ i p0 p q,
        price !! 0 = Some p0 → price !! i = Some p → price !! S i = Some q →
        ∃ d c, daily !! S i = Some (Fin d) ∧ (d == (q / p - 1) * 100)%Q
               ∧ cum !! S i = Some (Fin c) ∧ (c == (q / p0 - 1) * 100)%Q.
Proof.
  intros Hclose Hnz.
  destruct (add_returns_inr data price Hclose Hnz)
    as (df & daily & cum & Hdf & _ & Hrest).
  exists df, daily, cum. split; [exact Hdf | exact Hrest].
Qed.

Lemma cumulative_return_telescopes_witness :
  ∃ df daily cum,
    add_returns (daily_frame ramp 5) = inr df
    ∧ columns df !! "Close" = Some (Fin <$> (ramp <$> seq 0 5))
    ∧ columns df !! "Daily_Return" = Some daily
    ∧ columns df !! "Cum_Return" = Some cum
    ∧ length daily = length (ramp <$> seq 0 5)
    ∧ length cum = length (ramp <$> seq 0 5)
    ∧ (ramp <$> seq 0 5 ≠ [] → daily !! 0 = Some NaN ∧ cum !! 0 = Some NaN)
    ∧ ∀ i p0 p q,
        (ramp <$> seq 0 5) !! 0 = Some p0 → (ramp <$> seq 0 5) !! i = Some p →
        (ramp <$> seq 0 5) !! S i = Some q →
        ∃ d c, daily !! S i = Some (Fin d) ∧ (d == (q / p - 1) * 100)%Q
               ∧ cum !! S i = Some (Fin c) ∧ (c == (q / p0 - 1) * 100)%Q.
Proof.
  apply (cumulative_return_telescopes (daily_frame ramp 5) (ramp <$> seq 0 5)).
  - vm_compute. reflexivity.
  - repeat (apply Forall_cons; split; [intros E; vm_compute in E; discriminate |]).
    apply Forall_nil. exact I.
Defined.

Lemma period_return_nan (latest : xfloat) : period_return NaN latest = NaN.
Proof. unfold period_return. by destruct latest. Qed.

(** X2: the period return that the performance table reports, computed from
    two cumulative returns of the same series, is a hundred times the change
    in percent between the two closes; it is NaN when the period starts at
    the first row. *)
Theorem period_return_is_hundredfold (data : DataFrame) (price : list Q) :
  df_get data "Close" = inr (Fin <$> price) →
  Forall (λ p, ¬ (p == 0)%Q) price →
  ∃ df cum,
    add_returns data = inr df
    ∧ columns df !! "Cum_Return" = Some cum
    ∧ (∀ first latest, cum !! 0 = Some first → period_return first latest = NaN)
    ∧ ∀ i j a b first latest,
        price !! S i = Some a → price !! S j = Some b →
        cum !! S i = Some first → cum !! S j = Some latest →
        ∃ v, period_return first latest = Fin v
             ∧ (v == (b / a - 1) * 100 * 100)%Q.
Proof.
  intros Hclose Hnz.
  destruct (add_returns_inr data price Hclose Hnz)
    as (df & daily & cum & Hdf & _ & _ & _ & Hcum & _ & Hlen & H0 & Hval).
  exists df, cum. split; [exact Hdf |]. split; [exact Hcum |]. split.
  - intros first latest Hfirst.
    destruct price as [|p0 rest].
    { apply lookup_lt_Some in Hfirst. simpl in Hlen. lia. }
    destruct (H0 ltac:(done)) as [_ Hnan].
    assert (first = NaN) as -> by congruence. apply period_return_nan.
  - intros i j a b first latest Ha Hb Hfirst Hlatest.
    destruct (lookup_lt_is_Some_2 price 0) as [p0 Hp0];
      [apply lookup_lt_Some in Ha; lia |].
    destruct (lookup_lt_is_Some_2 price i) as [pi Hpi];
      [apply lookup_lt_Some in Ha; lia |].
    destruct (lookup_lt_is_Some_2 price j) as [pj Hpj];
      [apply lookup_lt_Some in Hb; lia |].
    destruct (Hval i p0 pi a Hp0 Hpi Ha) as (_ & c1 & _ & _ & Hc1 & Hv1).
    destruct (Hval j p0 pj b Hp0 Hpj Hb) as (_ & c2 & _ & _ & Hc2 & Hv2).
    assert (first = Fin c1) as -> by congruence.
    assert (latest = Fin c2) as -> by congruence.
    assert (Hp0z : ¬ (p0 == 0)%Q) by (eapply Forall_lookup_1 in Hnz; eauto).
    assert (Haz : ¬ (a == 0)%Q) by (eapply Forall_lookup_1 in Hnz; eauto).
    assert (Hden : (1 + c1 / 100 == a / p0)%Q) by (rewrite Hv1; field; done).
    assert (Hdz : ¬ (1 + c1 / 100 == 0)%Q).
    { rewrite Hden. intros E. apply Haz.
      assert (E' : (a / p0 * p0 == 0)%Q) by (rewrite E; ring).
      rewrite Qmult_comm, Qmult_div_r in E' by done. exact E'. }
    unfold period_return. cbn [xsub xopp xadd].
    change (xdiv (Fin c1) (Fin 100)) with (Fin (c1 / 100)). cbn [xadd].
    rewrite xdiv_fin by exact Hdz. cbn [xmul].
    eexists. split; [reflexivity |].
    rewrite Hden, Hv1, Hv2. field. done.
Qed.

Lemma period_return_is_hundredfold_witness :
  ∃ df cum,
    add_returns (daily_frame ramp 5) = inr df
    ∧ columns df !! "Cum_Return" = Some cum
    ∧ (∀ first latest, cum !! 0 = Some first → period_return first latest = NaN)
    ∧ ∀ i j a b first latest,
        (ramp <$> seq 0 5) !! S i = Some a → (ramp <$> seq 0 5) !! S j = Some b →
        cum !! S i = Some first → cum !! S j = Some latest →
        ∃ v, period_return first latest = Fin v
             ∧ (v == (b / a - 1) * 100 * 100)%Q.
Proof.
  apply (period_return_is_hundredfold (daily_frame ramp 5) (ramp <$> seq 0 5)).
  - vm_compute. reflexivity.
  - repeat (apply Forall_cons; split; [intros E; vm_compute in E; discriminate |]).
    apply Forall_nil. exact I.
Defined.

(** ** The order of the scaled values *)

Lemma xleb_fin (a b : Q) : xleb (Fin a) (Fin b) = true ↔ (a <= b)%Q.
Proof.
  unfold xleb. cbn [xltb xeqb]. rewrite orb_true_iff, Qlt_bool_iff, Qeq_bool_iff.
  split; [intros [?|?]; lra |]. intros Hle.
  destruct (Qlt_le_dec a b); [by left | right; lra].
Qed.

Lemma xleb_fin_false (a b : Q) : xleb (Fin a) (Fin b) = false → (b <= a)%Q.
Proof.
  intros E. destruct (Qlt_le_dec a b) as [Hlt|?]; [| done].
  assert (xleb (Fin a) (Fin b) = true) by (apply xleb_fin; lra). congruence.
Qed.

Lemma nanmin_fin (qs : list Q) :
  qs ≠ [] →
  ∃ lo, nanmin (Fin <$> qs) = Fin lo ∧ lo ∈ qs ∧ ∀ q, q ∈ qs → (lo <= q)%Q.
Proof.
  induction qs as [|x l IH]; [done |]. intros _.
  unfold nanmin in *. rewrite fmap_cons. cbn [foldr].
  destruct l as [|y l].
  - exists x. split; [done |]. split; [by left |].
    intros q Hq. apply list_elem_of_singleton in Hq as ->. lra.
  - destruct (IH ltac:(done)) as (lo & -> & Hin & Hlo). cbn [nan_min2].
    destruct (xleb (Fin x) (Fin lo)) eqn:E.
    + apply xleb_fin in E. exists x. split; [done |]. split; [by left |].
      intros q Hq. apply elem_of_cons in Hq as [->|Hq]; [lra |].
      specialize (Hlo q Hq). lra.
    + apply xleb_fin_false in E. exists lo. split; [done |].
      split; [by right |].
      intros q Hq. apply elem_of_cons in Hq as [->|Hq]; [lra | by apply Hlo].
Qed.

Lemma nanmax_fin (qs : list Q) :
  qs ≠ [] →
  ∃ hi, nanmax (Fin <$> qs) = Fin hi ∧ hi ∈ qs ∧ ∀ q, q ∈ qs → (q <= hi)%Q.
Proof.
  induction qs as [|x l IH]; [done |]. intros _.
  unfold nanmax in *. rewrite fmap_cons. cbn [foldr].
  destruct l as [|y l].
  - exists x. split; [done |]. split; [by left |].
    intros q Hq. apply list_elem_of_singleton in Hq as ->. lra.
  - destruct (IH ltac:(done)) as (hi & -> & Hin & Hhi). cbn [nan_max2].
    destruct (xleb (Fin x) (Fin hi)) eqn:E.
    + apply xleb_fin in E. exists hi. split; [done |]. split; [by right |].
      intros q Hq. apply elem_of_cons in Hq as [->|Hq]; [lra | by apply Hhi].
    + apply xleb_fin_false in E. exists x. split; [done |]. split; [by left |].
      intros q Hq. apply elem_of_cons in Hq as [->|Hq]; [lra |].
      specialize (Hhi q Hq). lra.
Qed.

(** The transform of a fitted scaler divides the distance from the minimum
    by a positive number: the range, or 1 when the range is below ten machine
    epsilons. *)
Lemma scaler_divides_by_positive (s : MinMaxScaler) (lo hi : Q) :
  data_min_ s = Fin lo → data_max_ s = Fin hi →
  scale_ s = xdiv (xsub (Fin 1) (Fin 0))
               (handle_zeros_in_scale (xsub (data_max_ s) (data_min_ s))) →
  min_ s = xsub (Fin 0) (xmul (data_min_ s) (scale_ s)) →
  ∃ r, (0 < r)%Q ∧ ∀ x, xeq (transform1 s (Fin x)) (Fin ((x - lo) / r)).
Proof.
  intros Hlo Hhi Hscale Hmin. pose proof eps_pos as Heps.
  destruct (Qlt_le_dec (hi - lo) (10 * eps)) as [Hlt|Hge].
  - destruct (scaler_degenerate s lo hi Hlo Hhi Hlt Hscale Hmin) as (_ & Ht & _).
    exists 1%Q. split; [reflexivity |]. intros x. rewrite (Ht x). simpl. field.
  - destruct (scaler_affine s lo hi Hlo Hhi Hge Hscale Hmin) as [Ht _].
    exists (hi - lo)%Q. split; [lra | exact Ht].
Qed.

(** X3: on every non-empty series of finite closes [fit_transform] returns;
    the fitted minimum and maximum are closes of the series and bound every
    close; there is one scaled value per close, none of them negative; a
    close equal to the minimum is scaled to 0; and scaling preserves the
    order of the closes. *)
Theorem scaling_preserves_order (qs : list Q) :
  qs ≠ [] →
  ∃ s Y lo hi,
    scaler_fit_transform (Fin <$> qs) = inr (s, Y)
    ∧ data_min_ s = Fin lo ∧ data_max_ s = Fin hi
    ∧ lo ∈ qs ∧ hi ∈ qs ∧ (∀ q, q ∈ qs → (lo <= q <= hi)%Q)
    ∧ length Y = length qs
    ∧ (∀ i x, qs !! i = Some x →
         ∃ y, Y !! i = Some (Fin y) ∧ (0 <= y)%Q ∧ ((x == lo)%Q → (y == 0)%Q))
    ∧ (∀ i j x x' y y', qs !! i = Some x → qs !! j = Some x' →
         Y !! i = Some (Fin y) → Y !! j = Some (Fin y') →
         (x <= x')%Q → (y <= y')%Q).
Proof.
  intros Hne.
  assert (Hfin : Forall (λ x, is_finite x = true) (Fin <$> qs)).
  { apply Forall_fmap, Forall_forall. done. }
  assert (Hne' : Fin <$> qs ≠ []) by (by destruct qs).
  destruct (scaler_fit_checked _ (check_array_finite true _ Hne' Hfin)) as [s Hfit].
  pose proof (scaler_fit_transform_eq _ s Hfit) as Hft.
  apply scaler_fit_inr in Hfit as (_ & Hlo & Hhi & _ & Hscale & Hmin).
  destruct (nanmin_fin qs Hne) as (lo & Elo & Hloin & Hlob).
  destruct (nanmax_fin qs Hne) as (hi & Ehi & Hhiin & Hhib).
  rewrite Elo in Hlo. rewrite Ehi in Hhi.
  destruct (scaler_divides_by_positive s lo hi Hlo Hhi Hscale Hmin)
    as (r & Hr & Ht).
  assert (Hinv : (0 <= / r)%Q) by (apply Qinv_le_0_compat; lra).
  exists s, (transform1 s <$> (Fin <$> qs)), lo, hi.
  split; [exact Hft |]. split; [exact Hlo |]. split; [exact Hhi |].
  split; [exact Hloin |]. split; [exact Hhiin |].
  split; [intros q Hq; split; [by apply Hlob | by apply Hhib] |].
  split; [by rewrite !length_fmap |]. split.
  - intros i x Hx. rewrite !list_lookup_fmap, Hx. cbn [fmap option_fmap option_map].
    assert (Hxin : x ∈ qs) by (by eapply list_elem_of_lookup_2).
    pose proof (Hlob x Hxin) as Hx1.
    specialize (Ht x). destruct (transform1 s (Fin x)) as [y| | |]; try done.
    simpl in Ht. exists y. split; [done |]. split.
    + rewrite Ht. apply Qle_shift_div_l; lra.
    + intros E. rewrite Ht, E. field. lra.
  - intros i j x x' y y' Hx Hx' Hy Hy' Hle.
    rewrite !list_lookup_fmap, Hx in Hy. rewrite !list_lookup_fmap, Hx' in Hy'.
    cbn [fmap option_fmap option_map] in Hy, Hy'.
    injection Hy as Hy. injection Hy' as Hy'.
    pose proof (Ht x) as H1. pose proof (Ht x') as H2.
    rewrite Hy in H1. rewrite Hy' in H2. simpl in H1, H2.
    rewrite H1, H2. unfold Qdiv. apply Qmult_le_compat_r; [lra | exact Hinv].
Qed.

Lemma scaling_preserves_order_witness :
  ∃ s Y lo hi,
    scaler_fit_transform (Fin <$> [3; 1; 2]%Q) = inr (s, Y)
    ∧ data_min_ s = Fin lo ∧ data_max_ s = Fin hi
    ∧ lo ∈ [3; 1; 2]%Q ∧ hi ∈ [3; 1; 2]%Q
    ∧ (∀ q, q ∈ [3; 1; 2]%Q → (lo <= q <= hi)%Q)
    ∧ length Y = length [3; 1; 2]%Q
    ∧ (∀ i x, [3; 1; 2]%Q !! i = Some x →
         ∃ y, Y !! i = Some (Fin y) ∧ (0 <= y)%Q ∧ ((x == lo)%Q → (y == 0)%Q))
    ∧ (∀ i j x x' y y', [3; 1; 2]%Q !! i = Some x → [3; 1; 2]%Q !! j = Some x' →
         Y !! i = Some (Fin y) → Y !! j = Some (Fin y') →
         (x <= x')%Q → (y <= y')%Q).
Proof.
  apply (scaling_preserves_order [3; 1; 2]%Q). discriminate.
Defined.

(** ** Simple moving averages *)

Section MovingAverages.
Context `{FloatSqrt}.

(** X4: on a series of finite closes, each simple moving average (and the
    middle band) at an index past its warm-up gap is a finite value [m] with
    [m * w] equal to the sum of the trailing [w] closes. *)
Theorem sma_is_window_mean (data : DataFrame) (price : list Q) :
  df_get data "Close" = inr (Fin <$> price) →
  ∃ df, indicators_of data = inr df
    ∧ Forall (λ '(c, w), ∃ col, columns df !! c = Some col
                ∧ ∀ i, w ≤ i + 1 → i < length price →
                    ∃ m, col !! i = Some (Fin m)
                         ∧ (m * Q_of_nat w
                            == Qsum (take w (drop (i + 1 - w) price)))%Q)
             sma_windows.
Proof.
  intros Hclose.
  destruct (indicators_of_inr data _ Hclose)
    as (df & Hdf & _ & _ & H20 & H50 & H200 & _ & _ & _ & _ & _ & _ & Hmid & _).
  rewrite df_get_inr in H20, H50, H200, Hmid.
  exists df. split; [exact Hdf |]. unfold sma_windows.
  repeat (apply Forall_cons; split; [eexists; split; [eassumption |] |]);
    [.. | apply Forall_nil; exact I];
    intros i Hw Hi; rewrite rolling_mean_fin by (done || lia);
    (eexists; split; [reflexivity |]);
    field; (assert (0 < Q_of_nat 20)%Q by (apply Q_of_nat_pos; lia));
    (assert (0 < Q_of_nat 50)%Q by (apply Q_of_nat_pos; lia));
    (assert (0 < Q_of_nat 200)%Q by (apply Q_of_nat_pos; lia)); lra.
Qed.

End MovingAverages.

Lemma sma_is_window_mean_witness :
  ∃ df, @indicators_of approx_sqrt (daily_frame ramp 25) = inr df
    ∧ Forall (λ '(c, w), ∃ col, columns df !! c = Some col
                ∧ ∀ i, w ≤ i + 1 → i < length (ramp <$> seq 0 25) →
                    ∃ m, col !! i = Some (Fin m)
                         ∧ (m * Q_of_nat w
                            == Qsum (take w (drop (i + 1 - w) (ramp <$> seq 0 25))))%Q)
             sma_windows.
Proof.
  apply (@sma_is_window_mean approx_sqrt (daily_frame ramp 25) (ramp <$> seq 0 25)).
  vm_compute. reflexivity.
Defined.

(** ** MACD, bands and momentum *)

Lemma finite_list (l : list xfloat) :
  Forall (λ x, is_finite x = true) l → ∃ qs, l = Fin <$> qs.
Proof.
  induction 1 as [|x l Hx _ [qs ->]]; [by exists [] |].
  destruct x as [q| | |]; try done. by exists (q :: qs).
Qed.

Lemma is_ema_finite (k : Q) (price : list Q) (ema : list xfloat) :
  is_ema k price ema → ∃ eq, ema = Fin <$> eq ∧ length eq = length price.
Proof.
  intros [Hlen Hrec].
  destruct (finite_list ema) as [eq ->].
  - apply Forall_lookup. intros i x Hx.
    destruct (lookup_lt_is_Some_2 price i) as [p Hp].
    { apply lookup_lt_Some in Hx. lia. }
    destruct (Hrec i p Hp) as (e & He & _). by assert (x = Fin e) as -> by congruence.
  - exists eq. split; [done |]. by rewrite length_fmap in Hlen.
Qed.

Lemma is_ema_zero (k : Q) (price : list Q) (ema : list xfloat) :
  is_ema k price ema →
  (∀ p, p ∈ price → (p == 0)%Q) →
  ∀ i e, ema !! i = Some (Fin e) → (e == 0)%Q.
Proof.
  intros Hema Hz i e He.
  destruct (is_ema_constant k 0 price ema Hema Hz i) as (e' & He' & Hv).
  { destruct Hema as [Hlen _]. apply lookup_lt_Some in He. lia. }
  by assert (e = e') as -> by congruence.
Qed.

Section Macd.
Context `{FloatSqrt}.

(** X5: on a series of finite closes the MACD, its signal and its histogram
    are finite at every index; the MACD is the fast average minus the slow
    one, the signal satisfies the recurrence of an exponential moving average
    of the MACD with [k = 2 / (9 + 1)], seeded with the first MACD, and the
    histogram is the MACD minus the signal.  On a constant series all three
    are zero. *)
Theorem macd_columns (data : DataFrame) (price : list Q) :
  df_get data "Close" = inr (Fin <$> price) →
  ∃ df ema12 ema26 macd signal hist mq,
    indicators_of data = inr df
    ∧ columns df !! "EMA_12" = Some ema12
    ∧ columns df !! "EMA_26" = Some ema26
    ∧ columns df !! "MACD" = Some macd
    ∧ columns df !! "MACD_Signal" = Some signal
    ∧ columns df !! "MACD_Hist" = Some hist
    ∧ macd = Fin <$> mq ∧ length mq = length price
    ∧ is_ema (2 / (9 + 1)) mq signal
    ∧ (∀ i, i < length price →
         ∃ e12 e26 m s h,
           ema12 !! i = Some (Fin e12) ∧ ema26 !! i = Some (Fin e26)
           ∧ macd !! i = Some (Fin m) ∧ signal !! i = Some (Fin s)
           ∧ hist !! i = Some (Fin h)
           ∧ (m == e12 - e26)%Q ∧ (h == m - s)%Q
           ∧ ∀ v, (∀ p, p ∈ price → (p == v)%Q) →
               (m == 0)%Q ∧ (s == 0)%Q ∧ (h == 0)%Q).
Proof.
  intros Hclose.
  destruct (indicators_of_inr data _ Hclose)
    as (df & Hdf & _ & _ & _ & _ & _ & H12 & H26 & Hmacd & Hsig & Hhist & _).
  rewrite df_get_inr in H12, H26, Hmacd, Hsig, Hhist.
  pose proof (ewm_mean_is_ema 12 price) as E12.
  pose proof (ewm_mean_is_ema 26 price) as E26.
  destruct (is_ema_finite _ _ _ E12) as (q12 & Hq12 & L12).
  destruct (is_ema_finite _ _ _ E26) as (q26 & Hq26 & L26).
  set (mq := zip_with (λ a b, a + - b)%Q q12 q26).
  assert (Hm : macd_of (Fin <$> price) = Fin <$> mq).
  { unfold macd_of, s_sub. rewrite Hq12, Hq26. apply zip_with_xsub_fin. }
  assert (Lm : length mq = length price).
  { subst mq. rewrite length_zip_with. lia. }
  rewrite Hm in Hmacd, Hsig, Hhist.
  pose proof (ewm_mean_is_ema 9 mq) as E9.
  destruct (is_ema_finite _ _ _ E9) as (q9 & Hq9 & L9).
  exists df, (ewm_mean 12 (Fin <$> price)), (ewm_mean 26 (Fin <$> price)),
    (Fin <$> mq), (ewm_mean 9 (Fin <$> mq)),
    (s_sub (Fin <$> mq) (ewm_mean 9 (Fin <$> mq))), mq.
  repeat match goal with |- _ ∧ _ => split end; try done.
  intros i Hi.
  destruct (lookup_lt_is_Some_2 q12 i ltac:(lia)) as [e12 He12].
  destruct (lookup_lt_is_Some_2 q26 i ltac:(lia)) as [e26 He26].
  destruct (lookup_lt_is_Some_2 q9 i ltac:(lia)) as [s Hs].
  assert (Hmi : mq !! i = Some (e12 + - e26)%Q).
  { subst mq. rewrite lookup_zip_with, He12. simpl. rewrite He26. reflexivity. }
  exists e12, e26, (e12 + - e26)%Q, s, (e12 + - e26 + - s)%Q.
  rewrite Hq12, Hq26, Hq9. unfold s_sub.
  rewrite zip_with_xsub_fin, !list_lookup_fmap, He12, He26, Hmi, Hs.
  rewrite lookup_zip_with, Hmi. simpl. rewrite Hs. simpl.
  repeat match goal with |- _ ∧ _ => split end; try done; try reflexivity.
  intros v Hv.
  assert (H12v : (e12 == v)%Q).
  { destruct (is_ema_constant _ v price _ E12 Hv i Hi) as (e & He & Hev).
    rewrite Hq12, list_lookup_fmap, He12 in He. by injection He as <-. }
  assert (H26v : (e26 == v)%Q).
  { destruct (is_ema_constant _ v price _ E26 Hv i Hi) as (e & He & Hev).
    rewrite Hq26, list_lookup_fmap, He26 in He. by injection He as <-. }
  assert (Hmz : ∀ p, p ∈ mq → (p == 0)%Q).
  { intros p Hp. apply list_elem_of_lookup_1 in Hp as [j Hj].
    pose proof (lookup_lt_Some _ _ _ Hj) as Hjl.
    destruct (lookup_lt_is_Some_2 q12 j ltac:(lia)) as [a Ha].
    destruct (lookup_lt_is_Some_2 q26 j ltac:(lia)) as [b Hb].
    subst mq. rewrite lookup_zip_with, Ha in Hj. simpl in Hj.
    rewrite Hb in Hj. simpl in Hj. injection Hj as <-.
    destruct (is_ema_constant _ v price _ E12 Hv j ltac:(lia)) as (e & He & Hev).
    rewrite Hq12, list_lookup_fmap, Ha in He. injection He as <-.
    destruct (is_ema_constant _ v price _ E26 Hv j ltac:(lia)) as (e & He & Hev').
    rewrite Hq26, list_lookup_fmap, Hb in He. injection He as <-. lra. }
  assert (Hsz : (s == 0)%Q).
  { apply (is_ema_zero _ mq _ E9 Hmz i). by rewrite Hq9, list_lookup_fmap, Hs. }
  repeat split; lra.
Qed.

End Macd.

Lemma macd_columns_witness :
  ∃ df ema12 ema26 macd signal hist mq,
    @indicators_of approx_sqrt (daily_frame (flat 7) 12) = inr df
    ∧ columns df !! "EMA_12" = Some ema12
    ∧ columns df !! "EMA_26" = Some ema26
    ∧ columns df !! "MACD" = Some macd
    ∧ columns df !! "MACD_Signal" = Some signal
    ∧ columns df !! "MACD_Hist" = Some hist
    ∧ macd = Fin <$> mq ∧ length mq = length (flat 7 <$> seq 0 12)
    ∧ is_ema (2 / (9 + 1)) mq signal
    ∧ (∀ i, i < length (flat 7 <$> seq 0 12) →
         ∃ e12 e26 m s h,
           ema12 !! i = Some (Fin e12) ∧ ema26 !! i = Some (Fin e26)
           ∧ macd !! i = Some (Fin m) ∧ signal !! i = Some (Fin s)
           ∧ hist !! i = Some (Fin h)
           ∧ (m == e12 - e26)%Q ∧ (h == m - s)%Q
           ∧ ∀ v, (∀ p, p ∈ flat 7 <$> seq 0 12 → (p == v)%Q) →
               (m == 0)%Q ∧ (s == 0)%Q ∧ (h == 0)%Q).
Proof.
  apply (@macd_columns approx_sqrt (daily_frame (flat 7) 12) (flat 7 <$> seq 0 12)).
  vm_compute. reflexivity.
Defined.

Lemma Qsquare_nonneg (y : Q) : (0 <= y * y)%Q.
Proof.
  unfold Qle, Qmult. cbn [Qnum Qden]. rewrite Z.mul_1_r.
  change (0 * _)%Z with 0%Z. apply Z.square_nonneg.
Qed.

Lemma squares_nonneg (m : Q) (win : list Q) :
  Forall (λ q, (0 <= q)%Q) ((λ x, (x + - m) * (x + - m))%Q <$> win).
Proof.
  apply Forall_fmap, Forall_forall. intros x _. apply Qsquare_nonneg.
Qed.

Lemma var_q_nonneg (win : list Q) : 2 ≤ length win → (0 <= var_q win)%Q.
Proof.
  intros Hlen. unfold var_q.
  apply Qle_shift_div_l; [apply Q_of_nat_pos; lia |].
  pose proof (Qsum_nonneg _ (squares_nonneg (Qsum win / Q_of_nat (length win)) win)).
  lra.
Qed.

Section Bands.
Context `{FloatSqrt}.

Lemma std_fin (win : list Q) :
  2 ≤ length win → std (Fin <$> win) = Fin (fl_sqrt (var_q win)).
Proof.
  intros Hlen. unfold std. cbv zeta.
  rewrite mean_fin by (intros ->; simpl in Hlen; lia).
  rewrite (fmap_fin _ (λ x, (x + - (Qsum win / Q_of_nat (length win)))
                            * (x + - (Qsum win / Q_of_nat (length win))))%Q)
    by done.
  rewrite xsum_fin, length_fmap, xdiv_fin.
  - fold (var_q win). unfold xsqrt.
    assert (Qlt_bool (var_q win) 0 = false) as ->; [| done].
    apply Qlt_bool_false, var_q_nonneg. done.
  - pose proof (Q_of_nat_pos (length win - 1) ltac:(lia)). intros E. lra.
Qed.

Lemma rolling_std_fin (w : nat) (qs : list Q) (i : nat) :
  2 ≤ w → w ≤ i + 1 → i < length qs →
  rolling w std (Fin <$> qs) !! i
  = Some (Fin (fl_sqrt (var_q (take w (drop (i + 1 - w) qs))))).
Proof.
  intros Hw Hi Hlen. rewrite rolling_lookup by (by rewrite length_fmap).
  cbv zeta. rewrite bool_decide_eq_true_2 by done.
  rewrite <- fmap_drop, <- fmap_take, forallb_finite_fin. cbn [andb].
  rewrite std_fin; [done |]. rewrite length_take, length_drop. lia.
Qed.

(** X6: when the square root is never negative, on a series of finite closes
    and at every index from 19 on, the band columns are finite: the middle is
    the mean [m] of the trailing 20 closes, the deviation [s] is the square
    root of their sample variance, the upper band is [m + 2 s] and the lower
    band [m - 2 s], so the lower band is at most the middle and the middle at
    most the upper band; and the width is [4 s / m] when [m] is not zero. *)
Theorem bands_bracket_the_mean (data : DataFrame) (price : list Q) :
  (∀ q, (0 <= fl_sqrt q)%Q) →
  df_get data "Close" = inr (Fin <$> price) →
  ∃ df middle sd upper lower width,
    indicators_of data = inr df
    ∧ columns df !! "BB_Middle" = Some middle
    ∧ columns df !! "BB_Std" = Some sd
    ∧ columns df !! "BB_Upper" = Some upper
    ∧ columns df !! "BB_Lower" = Some lower
    ∧ columns df !! "BB_Width" = Some width
    ∧ ∀ i, 19 ≤ i → i < length price →
        let win := take 20 (drop (i + 1 - 20) price) in
        ∃ m s u l,
          middle !! i = Some (Fin m) ∧ sd !! i = Some (Fin s)
          ∧ upper !! i = Some (Fin u) ∧ lower !! i = Some (Fin l)
          ∧ (m * 20 == Qsum win)%Q
          ∧ s = fl_sqrt (var_q win)
          ∧ (var_q win * 19 == Qsum ((λ x, (x - m) * (x - m))%Q <$> win))%Q
          ∧ (u == m + 2 * s)%Q ∧ (l == m - 2 * s)%Q
          ∧ (l <= m)%Q ∧ (m <= u)%Q
          ∧ (¬ (m == 0)%Q →
             ∃ w, width !! i = Some (Fin w) ∧ (w == 4 * s / m)%Q).
Proof.
  intros Hsqrt Hclose.
  destruct (indicators_of_inr data _ Hclose)
    as (df & Hdf & _ & _ & _ & _ & _ & _ & _ & _ & _ & _ & _ & Hmid & Hstd
        & Hup & Hlo & Hwid & _).
  rewrite df_get_inr in Hmid, Hstd, Hup, Hlo, Hwid.
  eexists df, _, _, _, _, _. split; [exact Hdf |].
  split; [exact Hmid |]. split; [exact Hstd |]. split; [exact Hup |].
  split; [exact Hlo |]. split; [exact Hwid |].
  intros i H19 Hi win.
  assert (Hwl : length win = 20).
  { subst win. rewrite length_take, length_drop. lia. }
  set (m := (Qsum win / Q_of_nat 20)%Q).
  set (s := fl_sqrt (var_q win)).
  assert (Hm : rolling 20 mean (Fin <$> price) !! i = Some (Fin m)).
  { by rewrite rolling_mean_fin by lia. }
  assert (Hs : rolling 20 std (Fin <$> price) !! i = Some (Fin s)).
  { by rewrite rolling_std_fin by lia. }
  assert (Hu : bb_upper_of (Fin <$> price) !! i = Some (Fin (m + 2 * s)%Q)).
  { unfold bb_upper_of, s_add. rewrite lookup_zip_with, list_lookup_fmap, Hm, Hs.
    reflexivity. }
  assert (Hl : bb_lower_of (Fin <$> price) !! i = Some (Fin (m + - (2 * s))%Q)).
  { unfold bb_lower_of, s_sub. rewrite lookup_zip_with, list_lookup_fmap, Hm, Hs.
    reflexivity. }
  pose proof (Hsqrt (var_q win)) as Hs0. fold s in Hs0.
  exists m, s, (m + 2 * s)%Q, (m + - (2 * s))%Q.
  split; [exact Hm |]. split; [exact Hs |]. split; [exact Hu |].
  split; [exact Hl |].
  split.
  { unfold m. generalize (Qsum win). intros S.
    change (Q_of_nat 20) with 20%Q. field. }
  split; [reflexivity |].
  split.
  { unfold var_q. rewrite Hwl. change (20 - 1) with 19.
    change (Q_of_nat 19) with 19%Q. fold m.
    assert (E : ((λ x, (x + - m) * (x + - m))%Q <$> win)
                = ((λ x, (x - m) * (x - m))%Q <$> win)) by reflexivity.
    rewrite E.
    generalize (Qsum ((λ x : Q, ((x - m) * (x - m))%Q) <$> win)). intros S.
    field. }
  split; [reflexivity |]. split; [unfold Qminus; reflexivity |].
  split; [lra |]. split; [lra |].
  intros Hmz. unfold s_div, s_sub.
  rewrite !lookup_zip_with, Hu, Hl, Hm. simpl.
  rewrite (Qeq_bool_false _ _ Hmz). eexists. split; [reflexivity |].
  field. exact Hmz.
Qed.

(** X7: on a series of finite closes and at every index from 10 on, the
    momentum is the close divided by the close ten rows earlier when that
    earlier close is not zero, and is not a finite value when it is zero. *)
Theorem momentum_is_ratio (data : DataFrame) (price : list Q) :
  df_get data "Close" = inr (Fin <$> price) →
  ∃ df momentum,
    indicators_of data = inr df
    ∧ columns df !! "Momentum" = Some momentum
    ∧ length momentum = length price
    ∧ ∀ i p q, 10 ≤ i → price !! (i - 10) = Some p → price !! i = Some q →
        (¬ (p == 0)%Q →
         ∃ m, momentum !! i = Some (Fin m) ∧ (m == q / p)%Q)
        ∧ ((p == 0)%Q →
           ∃ x, momentum !! i = Some x ∧ is_finite x = false).
Proof.
  intros Hclose.
  destruct (indicators_of_inr data _ Hclose)
    as (df & Hdf & _ & _ & _ & _ & _ & _ & _ & _ & _ & _ & _ & _ & _ & _ & _ & _
        & Hmom).
  rewrite df_get_inr in Hmom.
  eexists df, _. split; [exact Hdf |]. split; [exact Hmom |].
  split.
  { unfold s_div. rewrite length_zip_with, shift_length, length_fmap. lia. }
  intros i p q H10 Hp Hq.
  assert (Hi : i < length price) by (by eapply lookup_lt_Some).
  assert (Hv : s_div (Fin <$> price) (shift 10 (Fin <$> price)) !! i
               = Some (xdiv (Fin q) (Fin p))).
  { unfold s_div.
    rewrite lookup_zip_with, shift_lookup by (rewrite ?length_fmap; lia).
    rewrite !list_lookup_fmap, Hq, Hp. reflexivity. }
  rewrite Hv. split.
  - intros Hpz. rewrite xdiv_fin by done. eexists. split; reflexivity.
  - intros Hpz. eexists. split; [reflexivity |]. cbn [xdiv].
    rewrite (Qeq_eq_bool _ _ Hpz). by destruct (q ?= 0)%Q.
Qed.

End Bands.

Lemma approx_sqrt_nonneg (q : Q) : (0 <= approx_sqrt q)%Q.
Proof.
  unfold approx_sqrt, Qle. cbn [Qnum Qden].
  pose proof (Z.sqrt_nonneg (Qnum q * Z.pos (Qden q))). lia.
Qed.

Lemma bands_bracket_the_mean_witness :
  ∃ df middle sd upper lower width,
    @indicators_of approx_sqrt (daily_frame ramp 21) = inr df
    ∧ columns df !! "BB_Middle" = Some middle
    ∧ columns df !! "BB_Std" = Some sd
    ∧ columns df !! "BB_Upper" = Some upper
    ∧ columns df !! "BB_Lower" = Some lower
    ∧ columns df !! "BB_Width" = Some width
    ∧ ∀ i, 19 ≤ i → i < length (ramp <$> seq 0 21) →
        let win := take 20 (drop (i + 1 - 20) (ramp <$> seq 0 21)) in
        ∃ m s u l,
          middle !! i = Some (Fin m) ∧ sd !! i = Some (Fin s)
          ∧ upper !! i = Some (Fin u) ∧ lower !! i = Some (Fin l)
          ∧ (m * 20 == Qsum win)%Q
          ∧ s = @fl_sqrt approx_sqrt (var_q win)
          ∧ (var_q win * 19 == Qsum ((λ x, (x - m) * (x - m))%Q <$> win))%Q
          ∧ (u == m + 2 * s)%Q ∧ (l == m - 2 * s)%Q
          ∧ (l <= m)%Q ∧ (m <= u)%Q
          ∧ (¬ (m == 0)%Q →
             ∃ w, width !! i = Some (Fin w) ∧ (w == 4 * s / m)%Q).
Proof.
  apply (@bands_bracket_the_mean approx_sqrt (daily_frame ramp 21)
           (ramp <$> seq 0 21)).
  - apply approx_sqrt_nonneg.
  - vm_compute. reflexivity.
Defined.

Lemma momentum_is_ratio_witness :
  ∃ df momentum,
    @indicators_of approx_sqrt (daily_frame ramp 12) = inr df
    ∧ columns df !! "Momentum" = Some momentum
    ∧ length momentum = length (ramp <$> seq 0 12)
    ∧ ∀ i p q, 10 ≤ i → (ramp <$> seq 0 12) !! (i - 10) = Some p →
        (ramp <$> seq 0 12) !! i = Some q →
        (¬ (p == 0)%Q →
         ∃ m, momentum !! i = Some (Fin m) ∧ (m == q / p)%Q)
        ∧ ((p == 0)%Q →
           ∃ x, momentum !! i = Some x ∧ is_finite x = false).
Proof.
  apply (@momentum_is_ratio approx_sqrt (daily_frame ramp 12) (ramp <$> seq 0 12)).
  vm_compute. reflexivity.
Defined.

(** ** The error of the historical predictions *)



Section Rmse.
Context `{FloatSqrt} `{Regressor}.


End Rmse.


(** ** Which series [train_predict_lstm] accepts *)


Lemma training_len_75 (n : nat) : n ≤ 75 → training_len n ≤ 60.
Proof.
  intros Hn. rewrite training_len_eq.
  apply Nat.lt_succ_r, Nat.Div0.div_lt_upper_bound. lia.
Qed.

Section Threshold.
Context `{FloatSqrt} `{Regressor}.


(** X10: on a collected series of 1 to 75 finite closes
    [train_predict_lstm] raises [IndexError], whatever the horizon and the
    regressor. *)
Theorem train_predict_lstm_needs_76_closes (self : StockAnalysisSystem)
    (symbol : string) (prediction_days : Z) (data : DataFrame) (price : list Q) :
  stock_data self !! symbol = Some data →
  df_get data "Close" = inr (Fin <$> price) →
  price ≠ [] →
  length price ≤ 75 →
  train_predict_lstm self symbol prediction_days = inl IndexError.
Proof.
  intros Hdata Hclose Hne Hn.
  unfold train_predict_lstm. rewrite Hdata. cbn [mbind exn_bind].
  destruct (run_without_train_windows 60 data prediction_days _ Hclose)
    as [[[Hnil|Hinf] _]|[_ ->]].
  - rewrite length_fmap. by apply training_len_75.
  - by destruct price.
  - rewrite existsb_finite in Hinf; [done | done |].
    apply Forall_fmap, Forall_forall. done.
  - reflexivity.
Qed.

End Threshold.


Lemma train_predict_lstm_needs_76_closes_witness :
  @train_predict_lstm approx_sqrt persistence short_system "AAPL" 30
  = inl IndexError.
Proof.
  apply (@train_predict_lstm_needs_76_closes approx_sqrt persistence short_system
           "AAPL" 30 (daily_frame ramp 50) (ramp <$> seq 0 50)).
  - vm_compute. reflexivity.
  - vm_compute. reflexivity.
  - vm_compute. discriminate.
  - vm_compute. lia.
Defined.

(** ** [calculate_technical_indicators] as an operation on the system *)

Section IndicatorsLoop.
Context `{FloatSqrt}.

Lemma indicators_of_no_close (data : DataFrame) :
  columns data !! "Close" = None → indicators_of data = inl KeyError.
Proof.
  intros Hnone. unfold indicators_of, df_get. cbv zeta. rewrite Hnone.
  reflexivity.
Qed.

(** The loop stops with [KeyError] as soon as one of the frames has no
    [Close] column. *)
Lemma indicators_loop_key_error (l : list (string * DataFrame)) :
  ∀ ti : gmap string DataFrame,
    (∃ symbol data, (symbol, data) ∈ l ∧ columns data !! "Close" = None) →
    for_each (λ ti '(symbol, data),
                df ← indicators_of data; mret (<[symbol := df]> ti)) ti l
    = inl KeyError.
Proof.
  induction l as [|[k d] l IH]; intros ti (symbol & data & Hin & Hnone).
  - by apply elem_of_nil in Hin.
  - cbn [for_each]. destruct (columns d !! "Close") as [close|] eqn:Hc.
    + apply df_get_inr in Hc.
      destruct (indicators_of_total d close Hc) as (df & -> & _).
      cbn [mbind exn_bind mret exn_ret]. apply IH.
      apply elem_of_cons in Hin as [[= -> ->]|Hin].
      * apply df_get_inr in Hc. congruence.
      * eauto.
    + by rewrite (indicators_of_no_close d Hc).
Qed.

Context `{Regressor}.

(** X12: when the frame collected for some symbol has no [Close] column,
    [calculate_technical_indicators] raises [KeyError]. *)
Theorem indicators_need_close (self : StockAnalysisSystem) (symbol : string)
    (data : DataFrame) :
  stock_data self !! symbol = Some data →
  columns data !! "Close" = None →
  calculate_technical_indicators self = inl KeyError.
Proof.
  intros Hdata Hnone. unfold calculate_technical_indicators.
  rewrite indicators_loop_key_error; [done |].
  exists symbol, data. split; [by apply elem_of_map_to_list | done].
Qed.

(** X13: a returning [calculate_technical_indicators] is idempotent: on its
    own result it returns that result again; and it leaves the indicator
    frame of every symbol without collected data as it was. *)
Theorem indicators_recomputed_wholesale (self self' : StockAnalysisSystem) :
  calculate_technical_indicators self = inr self' →
  calculate_technical_indicators self' = inr self'
  ∧ ∀ symbol, stock_data self !! symbol = None →
      technical_indicators self' !! symbol = technical_indicators self !! symbol.
Proof.
  intros Hcall.
  assert (Hclose : ∀ symbol data, stock_data self !! symbol = Some data →
            is_Some (columns data !! "Close")).
  { intros symbol data Hdata.
    destruct (columns data !! "Close") eqn:Hc; [done |].
    unfold calculate_technical_indicators in Hcall.
    rewrite indicators_loop_key_error in Hcall; [discriminate |].
    exists symbol, data. split; [by apply elem_of_map_to_list | done]. }
  assert (Hmem : ∀ symbol data,
            (symbol, data) ∈ map_to_list (stock_data self) →
            is_Some (columns data !! "Close")).
  { intros symbol data Hin. apply (Hclose symbol data).
    by apply elem_of_map_to_list. }
  assert (Hnotin : ∀ symbol, stock_data self !! symbol = None →
            symbol ∉ (map_to_list (stock_data self)).*1).
  { intros symbol Hnone Hin. apply list_elem_of_fmap in Hin as ([k d] & -> & Hin).
    apply elem_of_map_to_list in Hin. simpl in Hnone. congruence. }
  destruct (indicators_loop (map_to_list (stock_data self))
              (technical_indicators self) (NoDup_fst_map_to_list _) Hmem)
    as (ti1 & Hloop1 & Hin1 & Hout1).
  unfold calculate_technical_indicators in Hcall. rewrite Hloop1 in Hcall.
  injection Hcall as <-. cbn [technical_indicators stock_data].
  destruct (indicators_loop (map_to_list (stock_data self)) ti1
              (NoDup_fst_map_to_list _) Hmem)
    as (ti2 & Hloop2 & Hin2 & Hout2).
  split.
  - unfold calculate_technical_indicators.
    cbn [technical_indicators stock_data market_data models symbol_predictions].
    rewrite Hloop2. cbn [mbind exn_bind mret exn_ret]. do 2 f_equal.
    apply map_eq. intros symbol.
    destruct (stock_data self !! symbol) as [data|] eqn:Hdata.
    + apply elem_of_map_to_list in Hdata.
      destruct (Hin1 symbol data Hdata) as (df1 & -> & Hdf1).
      destruct (Hin2 symbol data Hdata) as (df2 & -> & Hdf2). congruence.
    + by apply Hout2, Hnotin.
  - intros symbol Hnone. by apply Hout1, Hnotin.
Qed.

End IndicatorsLoop.

Lemma indicators_need_close_witness :
  @calculate_technical_indicators approx_sqrt persistence closeless_system
  = inl KeyError.
Proof.
  apply (@indicators_need_close approx_sqrt persistence closeless_system "AAPL"
           {| index := [0%Z]; columns := {[ "Open" := [Fin 1] ]} |}).
  - vm_compute. reflexivity.
  - vm_compute. reflexivity.
Defined.

Lemma indicators_recomputed_wholesale_witness :
  ∃ self',
    @calculate_technical_indicators approx_sqrt persistence small_system
    = inr self'
    ∧ @calculate_technical_indicators approx_sqrt persistence self' = inr self'
    ∧ ∀ symbol, stock_data small_system !! symbol = None →
        technical_indicators self' !! symbol
        = technical_indicators small_system !! symbol.
Proof.
  destruct (@calculate_technical_indicators approx_sqrt persistence small_system)
    as [e|self'] eqn:Hcall.
  { exfalso. vm_compute in Hcall. discriminate. }
  exists self'. split; [reflexivity |].
  apply (@indicators_recomputed_wholesale approx_sqrt persistence small_system).
  exact Hcall.
Defined.

(** ** The predictions chart and the recommendations *)

Lemma frame_of_inr (idx : list Z) (c : string) (values : list xfloat) (df : DataFrame) :
  frame_of idx c values = inr df →
  index df = idx ∧ df_get df c = inr values ∧ length idx = length values.
Proof.
  unfold frame_of. case_bool_decide; [| discriminate]. intros [= <-].
  split; [done |]. split; [| done].
  unfold df_get. cbn [columns]. by rewrite lookup_singleton_eq.
Qed.

Section ReportFacts.
Context `{FloatSqrt} `{Regressor}.

(** What a returning call stores, in terms of the run. *)
Lemma train_predict_lstm_inr (self self' : StockAnalysisSystem) (symbol : string)
    (days : Z) (result : Model * list xfloat * DataFrame * xfloat) :
  train_predict_lstm self symbol days = inr (self', result) →
  ∃ data r,
    stock_data self !! symbol = Some data
    ∧ lstm_run 60 data days = inr r
    ∧ result = (model r, predictions r, future_df r, rmse r)
    ∧ stock_data self' = stock_data self
    ∧ symbol_predictions self' !! symbol
      = Some {| historical := predictions r; future := future_df r;
                pred_rmse := rmse r; pred_scaler := scaler r;
                pred_time_steps := 60 |}.
Proof.
  unfold train_predict_lstm. intros Hcall.
  destruct (stock_data self !! symbol) as [data|] eqn:Hdata; [| discriminate].
  cbn [mbind exn_bind] in Hcall. bind_inv Hcall.
  injection Hcall as <- <-. eexists _, _. split; [done |]. split; [done |].
  split; [done |]. split; [done |]. cbn [symbol_predictions].
  apply lookup_insert_eq.
Qed.


(** X15: in the state that a returning [train_predict_lstm] leaves, the
    recommendation block of the report, run for that symbol, adds a line to
    buy, to sell or to hold: the last close and the last predicted close are
    both there, and the [except] branch is not taken.  (Whether the report
    reaches the block is another matter: the statements before it are not
    embedded.) *)
Theorem recommendation_after_training (self self' : StockAnalysisSystem)
    (symbol : string) (prediction_days : Z)
    (result : Model * list xfloat * DataFrame * xfloat) :
  train_predict_lstm self symbol prediction_days = inr (self', result) →
  ∃ rec, recommendation self' symbol = Some rec ∧ rec ≠ Unable.
Proof.
  intros Hcall.
  apply train_predict_lstm_inr in Hcall
    as (data & r & Hdata & Hrun & _ & Hsd & Hpred).
  apply lstm_run_inv in Hrun
    as (Hc & Hft & _ & _ & _ & _ & _ & _ & _ & _ & _ & _ & _ & _
        & (w & preds & _ & Hinv) & _ & _ & Hframe).
  apply scaler_fit_transform_inr in Hft as (_ & _ & Hne & _).
  apply scaler_inverse_transform_inr in Hinv as (Hfut & Hpne).
  apply frame_of_inr in Hframe as (_ & Hfc & _).
  destruct (last (close_prices r)) as [lp|] eqn:Hlp;
    [| by apply last_None in Hlp].
  destruct (last (future_predictions r)) as [fp|] eqn:Hfp;
    [| apply last_None in Hfp; rewrite Hfut in Hfp; by destruct preds].
  unfold recommendation. rewrite Hpred, Hsd, Hdata.
  cbn [mbind exn_bind future]. rewrite Hc. cbn [mbind exn_bind].
  unfold item_last. rewrite Hlp. cbn [mbind exn_bind]. rewrite Hfc.
  cbn [mbind exn_bind]. rewrite Hfp. cbn [mbind exn_bind mret exn_ret].
  destruct (xltb (xmul lp (Fin (105 # 100))) fp);
    [| destruct (xltb fp (xmul lp (Fin (95 # 100))))];
    eexists; (split; [reflexivity | discriminate]).
Qed.

(** X16: for a positive last close [l] and a positive last predicted close
    [f], the recommendation is to buy exactly when [f] exceeds [1.05 l], with
    the increase [(f / l - 1) * 100], which is above 5; to sell exactly when
    [f] is below [0.95 l], with the figure [(l / f - 1) * 100], which is
    above the decrease in percent [(1 - f / l) * 100]; and to hold
    otherwise. *)
Theorem recommendation_rule (self : StockAnalysisSystem) (symbol : string)
    (p : Prediction) (data : DataFrame) (close predicted : list xfloat) (l f : Q) :
  symbol_predictions self !! symbol = Some p →
  stock_data self !! symbol = Some data →
  df_get data "Close" = inr close → last close = Some (Fin l) →
  df_get (future p) "Predicted_Close" = inr predicted →
  last predicted = Some (Fin f) →
  (0 < l)%Q → (0 < f)%Q →
  match recommendation self symbol with
  | Some (Buy pct) =>
      ((105 # 100) * l < f)%Q
      ∧ ∃ v, pct = Fin v ∧ (v == (f / l - 1) * 100)%Q ∧ (5 < v)%Q
  | Some (Sell pct) =>
      (f < (95 # 100) * l)%Q
      ∧ ∃ v, pct = Fin v ∧ (v == (l / f - 1) * 100)%Q
             ∧ ((1 - f / l) * 100 < v)%Q
  | Some Hold => ((95 # 100) * l <= f)%Q ∧ (f <= (105 # 100) * l)%Q
  | Some Unable | None => False
  end.
Proof.
  intros Hpred Hdata Hclose Hl Hpc Hf Hlpos Hfpos.
  unfold recommendation. rewrite Hpred, Hdata. cbn [mbind exn_bind].
  rewrite Hclose. cbn [mbind exn_bind]. unfold item_last. rewrite Hl.
  cbn [mbind exn_bind]. rewrite Hpc. cbn [mbind exn_bind]. rewrite Hf.
  cbn [mbind exn_bind mret exn_ret xmul xltb].
  destruct (Qlt_bool (l * (105 # 100)) f) eqn:Hbuy.
  - apply Qlt_bool_iff in Hbuy. split; [lra |].
    rewrite xdiv_fin by lra. cbn [xsub xopp xadd xmul].
    eexists. split; [reflexivity |]. split; [unfold Qminus; reflexivity |].
    assert (Hr : ((105 # 100) < f / l)%Q) by (apply Qlt_shift_div_l; lra).
    lra.
  - apply Qlt_bool_false in Hbuy.
    destruct (Qlt_bool f (l * (95 # 100))) eqn:Hsell.
    + apply Qlt_bool_iff in Hsell. split; [lra |].
      rewrite xdiv_fin by lra. cbn [xsub xopp xadd xmul].
      eexists. split; [reflexivity |]. split; [unfold Qminus; reflexivity |].
      assert (Hsq : (0 < (l - f) * (l - f))%Q).
      { apply Qmult_lt_0_compat; lra. }
      assert (Hlf : (0 < l * f)%Q) by (by apply Qmult_lt_0_compat).
      assert (Hg : (0 < (l - f) * (l - f) / (l * f))%Q).
      { apply Qlt_shift_div_l; lra. }
      assert (Heq : ((l / f + - (1)) * 100 - (1 - f / l) * 100
                     == 100 * ((l - f) * (l - f) / (l * f)))%Q).
      { field. split; lra. }
      lra.
    + apply Qlt_bool_false in Hsell. split; lra.
Qed.

End ReportFacts.


Lemma recommendation_after_training_witness :
  ∃ self' result,
    @train_predict_lstm approx_sqrt persistence collected_system "AAPL" 30
    = inr (self', result)
    ∧ ∃ rec, recommendation self' "AAPL" = Some rec ∧ rec ≠ Unable.
Proof.
  eexists _, _. split; [vm_compute; reflexivity |].
  eapply (@recommendation_after_training approx_sqrt persistence collected_system _
            "AAPL" 30).
  vm_compute. reflexivity.
Defined.

Lemma recommendation_rule_witness :
  match recommendation advised_system "AAPL" with
  | Some (Buy pct) =>
      ((105 # 100) * 3 < 4)%Q
      ∧ ∃ v, pct = Fin v ∧ (v == (4 / 3 - 1) * 100)%Q ∧ (5 < v)%Q
  | Some (Sell pct) =>
      (4 < (95 # 100) * 3)%Q
      ∧ ∃ v, pct = Fin v ∧ (v == (3 / 4 - 1) * 100)%Q
             ∧ ((1 - 4 / 3) * 100 < v)%Q
  | Some Hold => ((95 # 100) * 3 <= 4)%Q ∧ (4 <= (105 # 100) * 3)%Q
  | Some Unable | None => False
  end.
Proof.
  eapply (@recommendation_rule persistence advised_system "AAPL" _
            (daily_frame ramp 3) _ _ 3 4).
  - vm_compute. reflexivity.
  - vm_compute. reflexivity.
  - vm_compute. reflexivity.
  - vm_compute. reflexivity.
  - vm_compute. reflexivity.
  - vm_compute. reflexivity.
  - reflexivity.
  - reflexivity.
Defined.
